(** * Gate error of the Aer noise model: decomposition and sampling

    A shallow embedding of [AER::Noise::GateError]
    (src/noise/gate_error.hpp).  A [double] is a primitive binary64 float,
    a [complex_t] a pair of doubles, [std::vector] a list.  The C++
    exceptions and the undefined behaviour of an out-of-range vector index
    are explicit results; the object a method mutates is threaded through a
    small state-and-exception monad. *)

From Stdlib Require Import Floats ZArith NArith List Bool String Lia PeanoNat.
Import ListNotations.

Set Warnings "-inexact-float".

(* ===================================================================== *)
(** * Scalars: [double] and [std::complex<double>] *)
(* ===================================================================== *)

Definition double := float.

Record complex_t : Type := Cplx { real : double; imag : double }.

Module Complex.
Local Open Scope float_scope.

Definition zero : complex_t := Cplx 0 0.
Definition one : complex_t := Cplx 1 0.

(** [std::conj] *)
Definition conj (z : complex_t) : complex_t := Cplx (real z) (- imag z).

(** [operator+], [operator-], [operator*] on two complex numbers *)
Definition add (a b : complex_t) : complex_t :=
  Cplx (real a + real b) (imag a + imag b).
Definition sub (a b : complex_t) : complex_t :=
  Cplx (real a - real b) (imag a - imag b).
Definition mul (a b : complex_t) : complex_t :=
  Cplx (real a * real b - imag a * imag b)
       (real a * imag b + imag a * real b).

(** [double * complex] *)
Definition scale (s : double) (z : complex_t) : complex_t :=
  Cplx (s * real z) (s * imag z).

(** The C library's [hypot], which [std::abs] on a complex number calls:
    an infinite argument gives plus infinity even beside a NaN, a NaN
    otherwise gives a NaN, a zero argument gives the magnitude of the
    other one exactly, and elsewhere the larger magnitude is factored out
    so that no intermediate overflows or underflows. *)
Definition hypot (x y : double) : double :=
  let ax := PrimFloat.abs x in
  let ay := PrimFloat.abs y in
  if is_infinity ax || is_infinity ay then infinity
  else if is_nan ax || is_nan ay then nan
  else
    let big := if ax <? ay then ay else ax in
    let small := if ax <? ay then ax else ay in
    if small =? 0 then big
    else big * sqrt (1 + (small / big) * (small / big)).

(** [std::abs] of a complex number: its modulus, a [double]. *)
Definition abs (z : complex_t) : double := hypot (real z) (imag z).
End Complex.

(** A double that is zero, positive or plus infinity, on its IEEE 754
    specification. *)
Definition nonneg (x : spec_float) : bool :=
  match x with
  | S754_zero _ => true
  | S754_infinity s => negb s
  | S754_nan => false
  | S754_finite s _ _ => negb s
  end.

(** The same, or a NaN. *)
Definition nonneg_or_nan (x : spec_float) : bool :=
  match x with
  | S754_nan => true
  | _ => nonneg x
  end.

(* ===================================================================== *)
(** * Exceptions, results, and the state monad of a method call *)
(* ===================================================================== *)

(** Every error of the file is a [std::invalid_argument]; the message tells
    them apart. *)
Inductive exception : Type :=
| invalid_argument (what : string).

Definition InvalidChannel : exception :=
  invalid_argument "GateError input is not a CPTP map.".
Definition NonSquareOperator : exception :=
  invalid_argument "Error matrix is not square.".
Definition InvalidDecomposition : exception :=
  invalid_argument "GateError deduced probabilities invalid.".
Definition UnreachableState : exception :=
  invalid_argument "GateError type is out of range.".

(** What a call can do: return, throw, or index a vector past its end
    (undefined behaviour in C++, kept apart from every exception). *)
Inductive result (A : Type) : Type :=
| Ok (a : A)
| Threw (e : exception)
| OutOfBounds.
Arguments Ok {A} a.
Arguments Threw {A} e.
Arguments OutOfBounds {A}.

(** A method over a mutable object of type [S]: the result and the
    object's state when the call ends. *)
Definition M (S A : Type) : Type := S -> result A * S.

Definition ret {S A} (a : A) : M S A := fun s => (Ok a, s).
Definition throw {S A} (e : exception) : M S A := fun s => (Threw e, s).
Definition undefined {S A} : M S A := fun s => (OutOfBounds, s).
Definition bind {S A B} (c : M S A) (k : A -> M S B) : M S B :=
  fun s =>
    match c s with
    | (Ok a, s') => k a s'
    | (Threw e, s') => (Threw e, s')
    | (OutOfBounds, s') => (OutOfBounds, s')
    end.
Definition modify {S} (f : S -> S) : M S unit := fun s => (Ok tt, f s).

Declare Scope method_scope.
Delimit Scope method_scope with method.
Notation "x <- c ;; k" := (bind c (fun x => k))
  (at level 61, c at next level, right associativity) : method_scope.
Notation "c ;; k" := (bind c (fun _ => k))
  (at level 61, right associativity) : method_scope.

(** [v[i]] on a [std::vector]: unchecked. *)
Definition vector_at {S A} (v : list A) (i : nat) : M S A :=
  match nth_error v i with
  | Some a => ret a
  | None => undefined
  end.

(** A local computation that may throw, run inside a method. *)
Definition lift {S A} (r : exception + A) : M S A :=
  match r with
  | inl e => throw e
  | inr a => ret a
  end.

(* ===================================================================== *)
(** * The matrix library the decomposition is written against *)
(* ===================================================================== *)

(** [cmatrix_t], the [Utils] predicates and the modulus of a complex entry
    are declared outside the file; the decomposition takes them as an
    interface. *)
Class MatrixLib : Type := {
  cmatrix_t : Type;
  (** [cmatrix_t(size)]: a zero matrix over [size] entries *)
  matrix_of_size : nat -> cmatrix_t;
  (** [m.size()] *)
  msize : cmatrix_t -> nat;
  (** [m.GetRows()] *)
  GetRows : cmatrix_t -> nat;
  (** [m(i, j)] *)
  entry : cmatrix_t -> nat -> nat -> complex_t;
  (** [a + b], [a * b], [s * m] *)
  madd : cmatrix_t -> cmatrix_t -> cmatrix_t;
  mmul : cmatrix_t -> cmatrix_t -> cmatrix_t;
  smul : double -> cmatrix_t -> cmatrix_t;
  (** [std::abs] on an entry: the modulus as the C library computes it,
      with the library's own rounding *)
  cabs : complex_t -> double;
  (** [Utils::dagger], [Utils::is_square], [Utils::is_identity],
      [Utils::is_unitary] *)
  dagger : cmatrix_t -> cmatrix_t;
  is_square : cmatrix_t -> bool;
  is_identity : cmatrix_t -> double -> bool;
  is_unitary : cmatrix_t -> double -> bool
}.

(* ===================================================================== *)
(** * The data model *)
(* ===================================================================== *)

Definition uint_t := N.
Definition rvector_t := list double.

(** What [std::discrete_distribution] makes of the weights it is
    constructed from: fewer than two weights leave it empty (the single
    outcome 0); otherwise each weight is divided by their sum, accumulated
    left to right from [0.0]. *)
Definition normalize (ws : list double) : list double :=
  if (List.length ws <? 2)%nat then []
  else
    let sum := fold_left PrimFloat.add ws 0%float in
    map (fun w => (w / sum)%float) ws.

(** [std::discrete_distribution<uint_t>]: [prob] is the vector the object
    stores, the normalized weights; [weights] records the arguments of the
    constructor, which the object itself does not keep. *)
Record discrete_distribution : Type := {
  weights : list double;
  prob : list double
}.

(** The constructor from a list of weights. *)
Definition Discrete (ws : list double) : discrete_distribution :=
  {| weights := ws; prob := normalize ws |}.

Section Model.
Context {ML : MatrixLib}.
Local Open Scope float_scope.

(** Modelled from the spec: the unitary sub-channel (noise/unitary_error.hpp
    is not part of the sources) holds candidate unitaries and their
    weights; its setters replace them. *)
Record UnitaryError : Type := {
  unitary_probabilities : rvector_t;
  unitaries_ : list cmatrix_t
}.

(** Modelled from the spec: the Kraus sub-channel (noise/kraus_error.hpp
    is not part of the sources) holds Kraus operators and an activation
    probability; its setters replace them. *)
Record KrausError : Type := {
  kraus_ : list cmatrix_t;
  kraus_probability : double
}.

Definition UnitaryError_set_probabilities (probs : rvector_t)
    (u : UnitaryError) : UnitaryError :=
  {| unitary_probabilities := probs; unitaries_ := unitaries_ u |}.
Definition UnitaryError_set_unitaries (mats : list cmatrix_t)
    (u : UnitaryError) : UnitaryError :=
  {| unitary_probabilities := unitary_probabilities u; unitaries_ := mats |}.
Definition KrausError_set_kraus (ops : list cmatrix_t)
    (k : KrausError) : KrausError :=
  {| kraus_ := ops; kraus_probability := kraus_probability k |}.
Definition KrausError_set_probability (p : double)
    (k : KrausError) : KrausError :=
  {| kraus_ := kraus_ k; kraus_probability := p |}.

(** The members of [class GateError]. *)
Record GateError : Type := {
  probabilities_ : discrete_distribution;
  unitary_error_ : UnitaryError;
  kraus_error_ : KrausError
}.

(** [GateError() = default] *)
Definition GateError_default : GateError :=
  {| probabilities_ := Discrete [];
     unitary_error_ := {| unitary_probabilities := []; unitaries_ := [] |};
     kraus_error_ := {| kraus_ := []; kraus_probability := 0 |} |}.

(* =================================================================== *)
(** * The mutators *)
(* =================================================================== *)

Definition set_probabilities (p_identity p_unitary p_kraus : double)
    : M GateError unit :=
  modify (fun g =>
    {| probabilities_ := Discrete [p_identity; p_unitary; p_kraus];
       unitary_error_ := unitary_error_ g;
       kraus_error_ := kraus_error_ g |}).

Definition set_kraus (err : KrausError) : M GateError unit :=
  modify (fun g =>
    {| probabilities_ := probabilities_ g;
       unitary_error_ := unitary_error_ g;
       kraus_error_ := err |}).

Definition set_unitary (err : UnitaryError) : M GateError unit :=
  modify (fun g =>
    {| probabilities_ := probabilities_ g;
       unitary_error_ := err;
       kraus_error_ := kraus_error_ g |}).

(** Calls on the two member sub-channels. *)
Definition on_unitary_error (f : UnitaryError -> UnitaryError)
    : M GateError unit :=
  modify (fun g =>
    {| probabilities_ := probabilities_ g;
       unitary_error_ := f (unitary_error_ g);
       kraus_error_ := kraus_error_ g |}).
Definition on_kraus_error (f : KrausError -> KrausError)
    : M GateError unit :=
  modify (fun g =>
    {| probabilities_ := probabilities_ g;
       unitary_error_ := unitary_error_ g;
       kraus_error_ := f (kraus_error_ g) |}).

(* =================================================================== *)
(** * The decomposition, [set_from_ops] *)
(* =================================================================== *)

Definition threshold : double := 1e-10.

(** The first loop: [cptp = cptp + dagger(mat) * mat] over [mats]. *)
Definition cptp_sum (mats : list cmatrix_t) (cptp : cmatrix_t) : cmatrix_t :=
  fold_left (fun acc mat => madd acc (mmul (dagger mat) mat)) mats cptp.

(** The inner loop: [p += real(abs(mat(j, 0) * conj(mat(0, j))))] for
    [j < mat.GetRows()]. *)
Definition weight (mat : cmatrix_t) : double :=
  fold_left
    (fun p j =>
       p + cabs (Complex.mul (entry mat j 0)
                             (Complex.conj (entry mat 0 j))))
    (seq 0 (GetRows mat)) 0.

(** The locals of the second loop. *)
Record partition : Type := {
  p_identity : double;
  p_unitary : double;
  probs_unitaries : rvector_t;
  unitaries : list cmatrix_t;
  kraus : list cmatrix_t
}.

Definition partition_init : partition :=
  {| p_identity := 0; p_unitary := 0;
     probs_unitaries := []; unitaries := []; kraus := [] |}.

(** One iteration of the second loop. *)
Definition classify_one (st : partition) (mat : cmatrix_t)
    : exception + partition :=
  if negb (is_square mat) then inl NonSquareOperator
  else
    let p := weight mat in
    if 0 <? p then
      let tmp := smul (1 / sqrt p) mat in
      if is_identity tmp threshold then
        inr {| p_identity := p_identity st + p;
               p_unitary := p_unitary st;
               probs_unitaries := probs_unitaries st;
               unitaries := unitaries st;
               kraus := kraus st |}
      else if is_unitary tmp threshold then
        inr {| p_identity := p_identity st;
               p_unitary := p_unitary st + p;
               probs_unitaries := probs_unitaries st ++ [p];
               unitaries := unitaries st ++ [tmp];
               kraus := kraus st |}
      else
        inr {| p_identity := p_identity st;
               p_unitary := p_unitary st;
               probs_unitaries := probs_unitaries st;
               unitaries := unitaries st;
               kraus := kraus st ++ [mat] |}
    else inr st.

(** The second loop. *)
Fixpoint classify (mats : list cmatrix_t) (st : partition)
    : exception + partition :=
  match mats with
  | [] => inr st
  | mat :: rest =>
      match classify_one st mat with
      | inl e => inl e
      | inr st' => classify rest st'
      end
  end.

(** [p_kraus = 1. - p_identity - p_unitary] *)
Definition p_kraus (st : partition) : double :=
  1 - p_identity st - p_unitary st.

(** The sanity check's condition. *)
Definition deduced_invalid (st : partition) : bool :=
  threshold <? abs (p_identity st + p_unitary st + p_kraus st - 1).

(** The rescaled Kraus operators and unitary weights. *)
Definition rescaled_kraus (st : partition) : list cmatrix_t :=
  if (0 <? p_kraus st) && (p_kraus st <? 1)
  then map (fun k => smul (1 / sqrt (p_kraus st)) k) (kraus st)
  else kraus st.
Definition rescaled_probs (st : partition) : rvector_t :=
  if (0 <? p_unitary st) && (p_unitary st <? 1)
  then map (fun p => p / p_unitary st) (probs_unitaries st)
  else probs_unitaries st.

Local Open Scope method_scope.

Definition set_from_ops (mats : list cmatrix_t) (p_error : double)
    : M GateError unit :=
  mat0 <- vector_at mats 0 ;;
  let cptp := cptp_sum mats (matrix_of_size (msize mat0)) in
  (if Bool.eqb (is_identity cptp threshold) false
   then throw InvalidChannel else ret tt) ;;
  st <- lift (classify mats partition_init) ;;
  (if deduced_invalid st
   then throw InvalidDecomposition else ret tt) ;;
  set_probabilities (1 - p_error + p_error * p_identity st)
                    (p_error * p_unitary st)
                    (p_error * p_kraus st) ;;
  on_unitary_error (UnitaryError_set_probabilities (rescaled_probs st)) ;;
  on_unitary_error (UnitaryError_set_unitaries (unitaries st)) ;;
  let kraus' := rescaled_kraus st in
  on_kraus_error (KrausError_set_kraus kraus') ;;
  (if match kraus' with [] => true | _ :: _ => false end
   then on_kraus_error (KrausError_set_probability 0)
   else on_kraus_error (KrausError_set_probability 1)).

(** The object after a call that returns. *)
Definition configured (st : partition) (p_error : double) : GateError :=
  {| probabilities_ :=
       Discrete [1 - p_error + p_error * p_identity st;
                 p_error * p_unitary st;
                 p_error * p_kraus st];
     unitary_error_ :=
       {| unitary_probabilities := rescaled_probs st;
          unitaries_ := unitaries st |};
     kraus_error_ :=
       {| kraus_ := rescaled_kraus st;
          kraus_probability :=
            match rescaled_kraus st with [] => 0 | _ :: _ => 1 end |} |}.

(** Both accumulated weights stay non-negative along the loop. *)
Definition weights_nonneg (st : partition) : Prop :=
  (0 <=? p_identity st) = true /\ (0 <=? p_unitary st) = true.

(** [GateError(mats) { set_from_ops(mats, 1.0); }]: the object exists
    only when the body returns. *)
Definition GateError_from_ops (mats : list cmatrix_t) : result GateError :=
  match set_from_ops mats 1 GateError_default with
  | (Ok _, g) => Ok g
  | (Threw e, _) => Threw e
  | (OutOfBounds, _) => OutOfBounds
  end.

(* =================================================================== *)
(** * The second loop as a partition of the input *)
(* =================================================================== *)

(** [tmp = (1 / sqrt(p)) * mat] *)
Definition rescaled (mat : cmatrix_t) : cmatrix_t :=
  smul (1 / sqrt (weight mat)) mat.

(** The branch of the loop body a square matrix takes: the identity
    branch, the unitary branch, the Kraus branch, or none when [p > 0]
    fails. *)
Definition identity_term (mat : cmatrix_t) : bool :=
  (0 <? weight mat) && is_identity (rescaled mat) threshold.
Definition unitary_term (mat : cmatrix_t) : bool :=
  (0 <? weight mat) && negb (is_identity (rescaled mat) threshold)
  && is_unitary (rescaled mat) threshold.
Definition kraus_term (mat : cmatrix_t) : bool :=
  (0 <? weight mat) && negb (is_identity (rescaled mat) threshold)
  && negb (is_unitary (rescaled mat) threshold).

(** [acc += weight] over a list of matrices, left to right. *)
Definition sum_weights (acc : double) (mats : list cmatrix_t) : double :=
  fold_left (fun a mat => a + weight mat) mats acc.

(** The locals [st] extended by the terms of [mats], in input order. *)
Definition extend (st : partition) (mats : list cmatrix_t) : partition :=
  {| p_identity := sum_weights (p_identity st) (filter identity_term mats);
     p_unitary := sum_weights (p_unitary st) (filter unitary_term mats);
     probs_unitaries :=
       probs_unitaries st ++ map weight (filter unitary_term mats);
     unitaries := unitaries st ++ map rescaled (filter unitary_term mats);
     kraus := kraus st ++ filter kraus_term mats |}.

End Model.

(* ===================================================================== *)
(** * A dense matrix library *)
(* ===================================================================== *)

(** Modelled from the spec: the matrix class and the [Utils] predicates
    (framework/matrix.hpp and framework/utils.hpp are not part of the
    sources).  A matrix is its dimensions and its entries in column-major
    order; the identity test is entrywise, within the tolerance, on a
    square matrix; the unitarity test is the identity test on
    [dagger(m) * m]. *)
Module Dense.
Local Open Scope float_scope.

Record matrix : Type := {
  rows_ : nat;
  cols_ : nat;
  mat_ : list complex_t
}.

(** The [rows] by [cols] matrix whose entry [(i, j)] is [f i j]. *)
Definition build (rows cols : nat) (f : nat -> nat -> complex_t) : matrix :=
  {| rows_ := rows; cols_ := cols;
     mat_ := flat_map (fun j => map (fun i => f i j) (seq 0 rows))
                      (seq 0 cols) |}.

Definition get (m : matrix) (i j : nat) : complex_t :=
  nth (j * rows_ m + i) (mat_ m) Complex.zero.

Definition of_size (size : nat) : matrix :=
  build (Nat.sqrt size) (Nat.sqrt size) (fun _ _ => Complex.zero).

Definition size (m : matrix) : nat := List.length (mat_ m).

Definition add (a b : matrix) : matrix :=
  build (rows_ a) (cols_ a) (fun i j => Complex.add (get a i j) (get b i j)).

Definition dot (a b : matrix) (i j : nat) : complex_t :=
  fold_left (fun acc k => Complex.add acc (Complex.mul (get a i k) (get b k j)))
            (seq 0 (cols_ a)) Complex.zero.

Definition mul (a b : matrix) : matrix :=
  build (rows_ a) (cols_ b) (dot a b).

Definition scale (s : double) (a : matrix) : matrix :=
  build (rows_ a) (cols_ a) (fun i j => Complex.scale s (get a i j)).

Definition adjoint (a : matrix) : matrix :=
  build (cols_ a) (rows_ a) (fun i j => Complex.conj (get a j i)).

Definition square (a : matrix) : bool := Nat.eqb (rows_ a) (cols_ a).

Definition delta (i j : nat) : complex_t :=
  if Nat.eqb i j then Complex.one else Complex.zero.

(** Entry [(i, j)] is within [tol] of the identity's. *)
Definition close (a : matrix) (tol : double) (i j : nat) : bool :=
  negb (tol <? Complex.abs (Complex.sub (get a i j) (delta i j))).

Definition identity_within (a : matrix) (tol : double) : bool :=
  square a &&
  forallb (fun j => forallb (fun i => close a tol i j) (seq 0 (rows_ a)))
          (seq 0 (cols_ a)).

Definition unitary_within (a : matrix) (tol : double) : bool :=
  square a && identity_within (mul (adjoint a) a) tol.

(** A matrix from its rows. *)
Definition of_rows (rows cols : nat) (r : list (list complex_t)) : matrix :=
  build rows cols (fun i j => nth j (nth i r []) Complex.zero).

Definition identity (n : nat) : matrix := build n n delta.
End Dense.

#[export] Instance dense : MatrixLib := {|
  cmatrix_t := Dense.matrix;
  matrix_of_size := Dense.of_size;
  msize := Dense.size;
  GetRows := Dense.rows_;
  entry := Dense.get;
  madd := Dense.add;
  mmul := Dense.mul;
  smul := Dense.scale;
  cabs := Complex.abs;
  dagger := Dense.adjoint;
  is_square := Dense.square;
  is_identity := Dense.identity_within;
  is_unitary := Dense.unitary_within
|}.

(* ===================================================================== *)
(** * Sampling, [sample_noise] *)
(* ===================================================================== *)

Section Sampling.
Context {ML : MatrixLib}.

(** [Operations::Op], [reg_t] and [RngEngine] are opaque to the file. *)
Variables Op reg_t RngEngine : Type.

Definition NoiseOps : Type := list Op.

(** [RngEngine::rand_int] on a discrete distribution, and the
    [sample_noise] of the two sub-channels: methods that advance the
    randomness source. *)
Variable rand_int : discrete_distribution -> M RngEngine uint_t.
Variable UnitaryError_sample_noise :
  UnitaryError -> Op -> reg_t -> M RngEngine NoiseOps.
Variable KrausError_sample_noise :
  KrausError -> Op -> reg_t -> M RngEngine NoiseOps.

Local Open Scope method_scope.

Definition sample_noise (g : GateError) (op : Op) (qubits : reg_t)
    : M RngEngine NoiseOps :=
  noise_type <- rand_int (probabilities_ g) ;;
  match noise_type with
  | 0%N => ret [op]
  | 1%N => UnitaryError_sample_noise (unitary_error_ g) op qubits
  | 2%N => KrausError_sample_noise (kraus_error_ g) op qubits
  | _ => throw UnreachableState
  end.

End Sampling.

Arguments sample_noise {ML Op reg_t RngEngine}.

(** The same dispatch as a step relation, over collaborators that are only
    known as relations between the randomness source before and after a
    call and what the call produced.  A step records the branch drawn. *)
Section SamplingSteps.
Context {ML : MatrixLib}.
Variables Op reg_t RngEngine : Type.

Variable draws :
  discrete_distribution -> RngEngine -> uint_t -> RngEngine -> Prop.
Variable unitary_samples :
  UnitaryError -> Op -> reg_t -> RngEngine ->
  result (list Op) -> RngEngine -> Prop.
Variable kraus_samples :
  KrausError -> Op -> reg_t -> RngEngine ->
  result (list Op) -> RngEngine -> Prop.

Inductive sample_step (g : GateError) (op : Op) (qubits : reg_t)
    (rng : RngEngine) : uint_t -> result (list Op) -> RngEngine -> Prop :=
| step_identity rng' :
    draws (probabilities_ g) rng 0%N rng' ->
    sample_step g op qubits rng 0%N (Ok [op]) rng'
| step_unitary rng' r rng'' :
    draws (probabilities_ g) rng 1%N rng' ->
    unitary_samples (unitary_error_ g) op qubits rng' r rng'' ->
    sample_step g op qubits rng 1%N r rng''
| step_kraus rng' r rng'' :
    draws (probabilities_ g) rng 2%N rng' ->
    kraus_samples (kraus_error_ g) op qubits rng' r rng'' ->
    sample_step g op qubits rng 2%N r rng''
| step_out_of_range n rng' :
    draws (probabilities_ g) rng n rng' ->
    (2 < n)%N ->
    sample_step g op qubits rng n (Threw UnreachableState) rng'.

(** Repeated calls on one model and one randomness source: the branch and
    the result of each call, in order. *)
Inductive sample_run (g : GateError)
    : list (Op * reg_t) -> RngEngine ->
      list (uint_t * result (list Op)) -> RngEngine -> Prop :=
| run_done rng : sample_run g [] rng [] rng
| run_call op qubits calls rng branch r rng' trace rng'' :
    sample_step g op qubits rng branch r rng' ->
    sample_run g calls rng' trace rng'' ->
    sample_run g ((op, qubits) :: calls) rng ((branch, r) :: trace) rng''.

End SamplingSteps.

Arguments sample_step {ML Op reg_t RngEngine}.
Arguments sample_run {ML Op reg_t RngEngine}.

(** The graph of a method, as such a relation. *)
Definition graph_of {S A} (c : M S A) (s : S) (r : result A) (s' : S) : Prop :=
  c s = (r, s').

(** A successful draw of [rand_int]. *)
Definition draw_of {S} (rand_int : discrete_distribution -> M S uint_t)
    (d : discrete_distribution) (s : S) (n : uint_t) (s' : S) : Prop :=
  rand_int d s = (Ok n, s').

(* ===================================================================== *)
(** * Stand-ins for the collaborators of [sample_noise] *)
(* ===================================================================== *)

(** Modelled from the spec: a randomness source that is a deterministic
    function of its state (framework/rng.hpp is not part of the sources),
    here a tape of the labels still to be drawn; and sub-channels that
    draw once and append a replacement operation to the gate. *)
Module Replay.
Definition Op : Type := string.
Definition reg_t : Type := list N.
Definition RngEngine : Type := list uint_t.

Definition rand_int (_ : discrete_distribution) : M RngEngine uint_t :=
  fun tape =>
    match tape with
    | [] => (Ok 0%N, [])
    | n :: rest => (Ok n, rest)
    end.

Local Open Scope method_scope.
Local Open Scope string_scope.

Definition unitary_sample_noise (u : @UnitaryError dense) (op : Op)
    (qubits : reg_t) : M RngEngine (list Op) :=
  r <- rand_int (Discrete (unitary_probabilities u)) ;;
  ret [op; "unitary"].

Definition kraus_sample_noise (k : @KrausError dense) (op : Op)
    (qubits : reg_t) : M RngEngine (list Op) :=
  r <- rand_int (Discrete [kraus_probability k]) ;;
  ret [op; "kraus"].

Definition sample (g : @GateError dense) (op : Op) (qubits : reg_t)
    : M RngEngine (list Op) :=
  sample_noise rand_int unitary_sample_noise kraus_sample_noise g op qubits.
End Replay.

(* ===================================================================== *)
(** * Sample channels *)
(* ===================================================================== *)

Module Channels.
Local Open Scope float_scope.

Definition r (x : double) : complex_t := Cplx x 0.

(** Reset to |0>: |0><0| and |0><1|. *)
Definition K0 : Dense.matrix := Dense.of_rows 2 2 [[r 1; r 0]; [r 0; r 0]].
Definition K1 : Dense.matrix := Dense.of_rows 2 2 [[r 0; r 1]; [r 0; r 0]].

(** Reset to |1>: |1><0| and |1><1|. *)
Definition L0 : Dense.matrix := Dense.of_rows 2 2 [[r 0; r 0]; [r 1; r 0]].
Definition L1 : Dense.matrix := Dense.of_rows 2 2 [[r 0; r 0]; [r 0; r 1]].

(** The uniform mixture of the identity and Pauli X. *)
Definition X : Dense.matrix := Dense.of_rows 2 2 [[r 0; r 1]; [r 1; r 0]].
Definition bit_flip : list Dense.matrix :=
  [Dense.scale (sqrt 0.5) (Dense.identity 2); Dense.scale (sqrt 0.5) X].

(** A 1 by 1 zero matrix followed by a 2 by 1 zero matrix. *)
Definition Z11 : Dense.matrix := Dense.of_rows 1 1 [[r 0]].
Definition Z21 : Dense.matrix := Dense.of_rows 2 1 [[r 0]; [r 0]].

(** The 1 by 1 identity followed by a 2 by 1 zero matrix. *)
Definition I11 : Dense.matrix := Dense.identity 1.

(** The classifications of the bit-flip channel and of the reset to |1>. *)
Definition bit_flip_partition : @partition dense :=
  Eval vm_compute in
    match classify bit_flip partition_init with
    | inr st => st
    | inl _ => partition_init
    end.
Definition reset1_partition : @partition dense :=
  Eval vm_compute in
    match classify [L0; L1] partition_init with
    | inr st => st
    | inl _ => partition_init
    end.

(** The model configured from the bit-flip channel. *)
Definition bit_flip_model : @GateError dense :=
  Eval vm_compute in snd (set_from_ops bit_flip 1 GateError_default).
End Channels.

(* ===================================================================== *)
(** * Order facts on doubles *)
(* ===================================================================== *)

Module FloatOrder.
Local Open Scope Z_scope.

Lemma SFleb_zero_nonneg x : SFleb (S754_zero false) x = nonneg x.
Proof. destruct x as [s|s| |s m e]; try destruct s; reflexivity. Qed.

Lemma shr_1_nonneg mrs : 0 <= shr_m mrs -> 0 <= shr_m (shr_1 mrs).
Proof.
  destruct mrs as [m r s]; simpl.
  destruct m as [|p|p]; simpl; try lia.
  destruct p; simpl; lia.
Qed.

Lemma iter_shr_1_nonneg p : forall mrs,
  0 <= shr_m mrs -> 0 <= shr_m (SpecFloat.iter_pos shr_1 p mrs).
Proof.
  induction p as [p IH|p IH|]; intros mrs H; simpl.
  - apply IH, IH, shr_1_nonneg, H.
  - apply IH, IH, H.
  - apply shr_1_nonneg, H.
Qed.

Lemma shr_nonneg mrs e n : 0 <= shr_m mrs -> 0 <= shr_m (fst (shr mrs e n)).
Proof.
  intros H. destruct n; simpl; auto. apply iter_shr_1_nonneg, H.
Qed.

Lemma shr_record_of_loc_m m l : shr_m (shr_record_of_loc m l) = m.
Proof. destruct l as [|[ | | ]]; reflexivity. Qed.

Lemma shr_fexp_nonneg prec emax m e l :
  0 <= m -> 0 <= shr_m (fst (shr_fexp prec emax m e l)).
Proof.
  intros H. unfold shr_fexp. apply shr_nonneg.
  rewrite shr_record_of_loc_m. exact H.
Qed.

Lemma round_nearest_even_nonneg m l : 0 <= m -> 0 <= round_nearest_even m l.
Proof.
  intros H. destruct l as [|[ | | ]]; simpl; try lia.
  destruct (Z.even m); lia.
Qed.

(** Rounding a non-negative mantissa with a positive sign never yields a
    negative number or a NaN. *)
Lemma binary_round_aux_nonneg prec emax m e l :
  0 <= m -> nonneg (binary_round_aux prec emax false m e l) = true.
Proof.
  intros H. unfold binary_round_aux.
  pose proof (shr_fexp_nonneg prec emax m e l H) as H1.
  destruct (shr_fexp prec emax m e l) as [mrs' e']. simpl in H1.
  pose proof (shr_fexp_nonneg prec emax _ e' loc_Exact
                (round_nearest_even_nonneg _ (loc_of_shr_record mrs') H1)) as H2.
  destruct (shr_fexp prec emax _ e' loc_Exact) as [mrs'' e'']. simpl in H2.
  destruct (shr_m mrs'') as [|p|p]; try reflexivity.
  - destruct (e'' <=? emax - prec); reflexivity.
  - lia.
Qed.

Lemma SFadd_nonneg prec emax x y :
  nonneg x = true -> nonneg y = true -> nonneg (SFadd prec emax x y) = true.
Proof.
  destruct x as [sx|sx| |sx mx ex]; destruct y as [sy|sy| |sy my ey];
    simpl; try discriminate; try (destruct sx; discriminate);
    try (destruct sy; discriminate); intros Hx Hy; auto.
  - destruct sx, sy; reflexivity.
  - destruct sx, sy; try discriminate; reflexivity.
  - destruct sx, sy; try discriminate. simpl.
    unfold binary_round.
    destruct (shl_align _ _ _) as [mz ez].
    apply binary_round_aux_nonneg. lia.
Qed.

Local Open Scope float_scope.

Lemma leb_zero_spec (x : float) : (0 <=? x) = nonneg (Prim2SF x).
Proof. rewrite leb_spec. apply SFleb_zero_nonneg. Qed.

Lemma ltb_zero_leb (x : float) : (0 <? x) = true -> (0 <=? x) = true.
Proof.
  rewrite ltb_spec, leb_spec. unfold SFltb, SFleb.
  destruct (SFcompare _ _) as [[ | | ]|]; congruence.
Qed.

(** Adding a positive double to a non-negative one gives a non-negative
    one (possibly plus infinity, never a NaN). *)
Lemma add_nonneg (a b : float) :
  (0 <=? a) = true -> (0 <? b) = true -> (0 <=? a + b) = true.
Proof.
  intros Ha Hb. apply ltb_zero_leb in Hb.
  rewrite leb_zero_spec in *. rewrite add_spec.
  apply SFadd_nonneg; assumption.
Qed.
End FloatOrder.

(* ===================================================================== *)
(** * What a call of [set_from_ops] amounts to *)
(* ===================================================================== *)

Section Decomposition.
Context {ML : MatrixLib}.
Local Open Scope float_scope.

Lemma set_from_ops_nil p_error g :
  set_from_ops [] p_error g = (OutOfBounds, g).
Proof. reflexivity. Qed.

Lemma set_from_ops_cons mat0 rest p_error g :
  set_from_ops (mat0 :: rest) p_error g =
  if is_identity (cptp_sum (mat0 :: rest) (matrix_of_size (msize mat0)))
                 threshold
  then match classify (mat0 :: rest) partition_init with
       | inl e => (Threw e, g)
       | inr st =>
           if deduced_invalid st
           then (Threw InvalidDecomposition, g)
           else (Ok tt, configured st p_error)
       end
  else (Threw InvalidChannel, g).
Proof.
  unfold set_from_ops, bind, vector_at. cbn [nth_error ret].
  destruct (is_identity _ threshold); cbn [Bool.eqb ret throw];
    [|reflexivity].
  destruct (classify (mat0 :: rest) partition_init) as [e|st];
    cbn [lift throw ret]; [reflexivity|].
  destruct (deduced_invalid st); cbn [throw ret]; [reflexivity|].
  unfold configured, set_probabilities, on_unitary_error, on_kraus_error,
    modify. cbn.
  destruct (rescaled_kraus st); reflexivity.
Qed.

(** The loop throws nothing but the squareness error. *)
Lemma classify_one_throws st mat e :
  classify_one st mat = inl e -> e = NonSquareOperator /\ is_square mat = false.
Proof.
  unfold classify_one. destruct (is_square mat); cbn [negb].
  - destruct (0 <? weight mat); [|discriminate].
    destruct (is_identity _ _); [discriminate|].
    destruct (is_unitary _ _); discriminate.
  - intros H. injection H as <-. auto.
Qed.

Lemma classify_nonsquare mats : forall st,
  Exists (fun mat => is_square mat = false) mats ->
  classify mats st = inl NonSquareOperator.
Proof.
  induction mats as [|mat rest IH]; intros st H.
  - inversion H.
  - cbn [classify].
    destruct (classify_one st mat) as [e|st'] eqn:E.
    + apply classify_one_throws in E. destruct E as [-> _]. reflexivity.
    + apply IH. inversion H as [? ? Hsq|? ? Hrest]; subst; [|exact Hrest].
      unfold classify_one in E. rewrite Hsq in E. discriminate.
Qed.

Lemma classify_one_nonneg st mat st' :
  weights_nonneg st -> classify_one st mat = inr st' -> weights_nonneg st'.
Proof.
  intros [Hi Hu]. unfold classify_one.
  destruct (is_square mat); cbn [negb]; [|discriminate].
  destruct (0 <? weight mat) eqn:Hp.
  - destruct (is_identity _ _).
    + intros H. injection H as <-. split; cbn; [|exact Hu].
      apply FloatOrder.add_nonneg; assumption.
    + destruct (is_unitary _ _); intros H; injection H as <-;
        split; cbn; auto.
      apply FloatOrder.add_nonneg; assumption.
  - intros H. injection H as <-. split; assumption.
Qed.

Lemma classify_nonneg mats : forall st st',
  weights_nonneg st -> classify mats st = inr st' -> weights_nonneg st'.
Proof.
  induction mats as [|mat rest IH]; intros st st' Hst; cbn [classify].
  - intros H. injection H as <-. exact Hst.
  - destruct (classify_one st mat) as [e|st1] eqn:E; [discriminate|].
    apply IH. eapply classify_one_nonneg; eassumption.
Qed.

Lemma partition_init_nonneg : weights_nonneg partition_init.
Proof. split; reflexivity. Qed.

End Decomposition.

(* ===================================================================== *)
(** * The decomposition: weights, errors, and the configured model *)
(* ===================================================================== *)

Section DecompositionClaims.
Context {ML : MatrixLib}.
Local Open Scope float_scope.

(** C2.  When the accumulated sum of [dagger(M) * M] over a non-empty
    input fails the identity test, [set_from_ops] throws the CPTP error
    and leaves the object as it was, whatever the classification loop
    would have done with the matrices; the constructor yields no object. *)
Theorem invalid_channel_rejected (g : GateError) (mat0 : cmatrix_t)
    (rest : list cmatrix_t) (p_error : double) :
  is_identity (cptp_sum (mat0 :: rest) (matrix_of_size (msize mat0)))
              threshold = false ->
  set_from_ops (mat0 :: rest) p_error g = (Threw InvalidChannel, g) /\
  GateError_from_ops (mat0 :: rest) = Threw InvalidChannel.
Proof.
  intros H. unfold GateError_from_ops.
  rewrite !set_from_ops_cons, H. split; reflexivity.
Qed.

(** C3, as amended.  For a non-empty input that passes the CPTP check and
    whose classification ends in [st]: the identity and unitary weights are
    non-negative, the Kraus weight is [1 - p_identity - p_unitary], and the
    call throws the decomposition error exactly when the three weights sum
    to something further than the tolerance from 1, returning otherwise. *)
Theorem recovered_weights (g : GateError) (mat0 : cmatrix_t)
    (rest : list cmatrix_t) (p_error : double) (st : partition) :
  is_identity (cptp_sum (mat0 :: rest) (matrix_of_size (msize mat0)))
              threshold = true ->
  classify (mat0 :: rest) partition_init = inr st ->
  (0 <=? p_identity st) = true /\
  (0 <=? p_unitary st) = true /\
  p_kraus st = 1 - p_identity st - p_unitary st /\
  set_from_ops (mat0 :: rest) p_error g =
    if threshold <? abs (p_identity st + p_unitary st + p_kraus st - 1)
    then (Threw InvalidDecomposition, g)
    else (Ok tt, configured st p_error).
Proof.
  intros Hcptp Hst.
  destruct (classify_nonneg _ _ _ partition_init_nonneg Hst) as [Hi Hu].
  repeat split; try assumption.
  rewrite set_from_ops_cons, Hcptp, Hst. reflexivity.
Qed.

(** A call that returns leaves the three-way distribution built from the
    weights of the classification and [p_error]. *)
Lemma distribution_of_returning_call (g g' : GateError)
    (mats : list cmatrix_t) (p_error : double) :
  set_from_ops mats p_error g = (Ok tt, g') ->
  exists st,
    classify mats partition_init = inr st /\
    probabilities_ g' =
      Discrete [1 - p_error + p_error * p_identity st;
                p_error * p_unitary st;
                p_error * p_kraus st].
Proof.
  destruct mats as [|mat0 rest]; [discriminate|].
  rewrite set_from_ops_cons.
  destruct (is_identity _ threshold); [|discriminate].
  destruct (classify (mat0 :: rest) partition_init) as [e|st]; [discriminate|].
  destruct (deduced_invalid st); [discriminate|].
  intros H. injection H as <-. exists st. split; reflexivity.
Qed.

(** C5, as amended.  When the classification of an input that passes both
    checks leaves no Kraus candidate, the call returns: the Kraus
    sub-channel gets no operators and activation probability 0, and the
    distribution's Kraus entry is [p_error * p_kraus] whatever its value. *)
Theorem empty_kraus_is_suppressed (g : GateError) (mat0 : cmatrix_t)
    (rest : list cmatrix_t) (p_error : double) (st : partition) :
  is_identity (cptp_sum (mat0 :: rest) (matrix_of_size (msize mat0)))
              threshold = true ->
  classify (mat0 :: rest) partition_init = inr st ->
  deduced_invalid st = false ->
  kraus st = [] ->
  exists g',
    set_from_ops (mat0 :: rest) p_error g = (Ok tt, g') /\
    kraus_ (kraus_error_ g') = [] /\
    kraus_probability (kraus_error_ g') = 0 /\
    nth_error (weights (probabilities_ g')) 2 = Some (p_error * p_kraus st).
Proof.
  intros Hcptp Hst Hok Hk.
  exists (configured st p_error).
  rewrite set_from_ops_cons, Hcptp, Hst, Hok.
  assert (Hr : rescaled_kraus st = []).
  { unfold rescaled_kraus. rewrite Hk. destruct (_ && _); reflexivity. }
  unfold configured. cbn. rewrite Hr. repeat split.
Qed.

(** C7, as amended.  A non-empty input that passes the CPTP check and
    holds a matrix that is not square makes [set_from_ops] throw the
    squareness error, from inside the classification loop, and leaves the
    object as it was. *)
Theorem nonsquare_rejected_after_cptp_check (g : GateError)
    (mat0 : cmatrix_t) (rest : list cmatrix_t) (p_error : double) :
  is_identity (cptp_sum (mat0 :: rest) (matrix_of_size (msize mat0)))
              threshold = true ->
  Exists (fun mat => is_square mat = false) (mat0 :: rest) ->
  classify (mat0 :: rest) partition_init = inl NonSquareOperator /\
  set_from_ops (mat0 :: rest) p_error g = (Threw NonSquareOperator, g).
Proof.
  intros Hcptp Hns.
  pose proof (classify_nonsquare _ partition_init Hns) as Hc.
  split; [exact Hc|].
  rewrite set_from_ops_cons, Hcptp, Hc. reflexivity.
Qed.

(** C8, as amended.  [set_probabilities] does no arithmetic of its own:
    it replaces the distribution by the one constructed from the three
    values it is given, unchanged and in order, and touches neither
    sub-channel; what that distribution stores is each value divided by
    the sum of the three, so values that do not add up to 1 are
    renormalized by the standard library. *)
Theorem set_probabilities_builds_distribution (pi pu pk : double)
    (g : GateError) :
  exists g',
    set_probabilities pi pu pk g = (Ok tt, g') /\
    probabilities_ g' = Discrete [pi; pu; pk] /\
    weights (probabilities_ g') = [pi; pu; pk] /\
    prob (probabilities_ g')
      = [pi / (0 + pi + pu + pk); pu / (0 + pi + pu + pk);
         pk / (0 + pi + pu + pk)] /\
    unitary_error_ g' = unitary_error_ g /\
    kraus_error_ g' = kraus_error_ g.
Proof.
  eexists. split; [reflexivity|]. cbn. repeat split.
Qed.

(** C10.  [set_from_ops] indexes the first matrix before anything else:
    on the empty list the call is an out-of-range access, not one of the
    errors, and the object is untouched; on a non-empty list the first
    element exists and the call never is such an access. *)
Theorem first_matrix_read_unchecked (g : GateError) (p_error : double) :
  set_from_ops [] p_error g = (OutOfBounds, g) /\
  forall mats : list cmatrix_t,
    mats <> [] ->
    (exists mat0, nth_error mats 0 = Some mat0) /\
    fst (set_from_ops mats p_error g) <> OutOfBounds.
Proof.
  split; [reflexivity|].
  intros [|mat0 rest] Hne; [congruence|].
  split; [exists mat0; reflexivity|].
  rewrite set_from_ops_cons.
  destruct (is_identity _ threshold); [|discriminate].
  destruct (classify _ _); [discriminate|].
  destruct (deduced_invalid _); discriminate.
Qed.

End DecompositionClaims.

(* ===================================================================== *)
(** * Sampling: dispatch and determinism *)
(* ===================================================================== *)

Section SamplingClaims.
Context {ML : MatrixLib}.
Variables Op reg_t RngEngine : Type.
Variable rand_int : discrete_distribution -> M RngEngine uint_t.
Variable UnitaryError_sample_noise :
  UnitaryError -> Op -> reg_t -> M RngEngine (list Op).
Variable KrausError_sample_noise :
  KrausError -> Op -> reg_t -> M RngEngine (list Op).

Let sample := sample_noise rand_int UnitaryError_sample_noise
                           KrausError_sample_noise.

(** C6.  [sample_noise] draws once from the three-way distribution; on
    label 0 it returns the operation alone, on label 1 (resp. 2) exactly
    what the unitary (resp. Kraus) sub-channel returns on the same
    operation, qubits and randomness source, and on any other label it
    throws the out-of-range error. *)
Theorem sample_noise_dispatch (g : GateError) (op : Op) (qubits : reg_t)
    (rng rng' : RngEngine) (noise_type : uint_t) :
  rand_int (probabilities_ g) rng = (Ok noise_type, rng') ->
  (noise_type = 0%N -> sample g op qubits rng = (Ok [op], rng')) /\
  (noise_type = 1%N ->
   sample g op qubits rng =
   UnitaryError_sample_noise (unitary_error_ g) op qubits rng') /\
  (noise_type = 2%N ->
   sample g op qubits rng =
   KrausError_sample_noise (kraus_error_ g) op qubits rng') /\
  ((2 < noise_type)%N ->
   sample g op qubits rng = (Threw UnreachableState, rng')).
Proof.
  intros Hdraw. unfold sample, sample_noise, bind. rewrite Hdraw.
  repeat split; intros H.
  - subst. reflexivity.
  - subst. reflexivity.
  - subst. reflexivity.
  - destruct noise_type as [|[[p|p|]|[p|p|]|]]; try lia; reflexivity.
Qed.

(** The step relation over the graphs of the collaborators is the graph of
    [sample_noise] on every call whose draw succeeds. *)
Lemma sample_step_graph (g : GateError) (op : Op) (qubits : reg_t)
    (rng rng' rng'' : RngEngine) (n : uint_t) (r : result (list Op)) :
  rand_int (probabilities_ g) rng = (Ok n, rng') ->
  sample g op qubits rng = (r, rng'') ->
  sample_step (draw_of rand_int)
              (fun u o q => graph_of (UnitaryError_sample_noise u o q))
              (fun k o q => graph_of (KrausError_sample_noise k o q))
              g op qubits rng n r rng''.
Proof.
  intros Hdraw Hrun.
  unfold sample, sample_noise, bind in Hrun. rewrite Hdraw in Hrun.
  destruct n as [|[[p|p|]|[p|p|]|]];
    try (injection Hrun as <- <-; apply step_out_of_range; [exact Hdraw|lia]).
  - injection Hrun as <- <-. apply step_identity. exact Hdraw.
  - eapply step_kraus; [exact Hdraw | exact Hrun].
  - eapply step_unitary; [exact Hdraw | exact Hrun].
Qed.

End SamplingClaims.

Section Determinism.
Context {ML : MatrixLib}.
Variables Op reg_t RngEngine : Type.
Variable draws :
  discrete_distribution -> RngEngine -> uint_t -> RngEngine -> Prop.
Variable unitary_samples :
  UnitaryError -> Op -> reg_t -> RngEngine ->
  result (list Op) -> RngEngine -> Prop.
Variable kraus_samples :
  KrausError -> Op -> reg_t -> RngEngine ->
  result (list Op) -> RngEngine -> Prop.

(** The collaborators are functions of their arguments and of the state of
    the randomness source. *)
Hypothesis draws_functional : forall d rng n1 rng1 n2 rng2,
  draws d rng n1 rng1 -> draws d rng n2 rng2 -> n1 = n2 /\ rng1 = rng2.
Hypothesis unitary_functional : forall u op qubits rng r1 rng1 r2 rng2,
  unitary_samples u op qubits rng r1 rng1 ->
  unitary_samples u op qubits rng r2 rng2 -> r1 = r2 /\ rng1 = rng2.
Hypothesis kraus_functional : forall k op qubits rng r1 rng1 r2 rng2,
  kraus_samples k op qubits rng r1 rng1 ->
  kraus_samples k op qubits rng r2 rng2 -> r1 = r2 /\ rng1 = rng2.

Let step := sample_step draws unitary_samples kraus_samples.
Let run := sample_run draws unitary_samples kraus_samples.

Lemma sample_step_functional g op qubits rng b1 r1 rng1 b2 r2 rng2 :
  step g op qubits rng b1 r1 rng1 ->
  step g op qubits rng b2 r2 rng2 ->
  b1 = b2 /\ r1 = r2 /\ rng1 = rng2.
Proof.
  intros S1 S2.
  inversion S1 as [a1 D1|a1 x1 c1 D1 U1|a1 x1 c1 D1 K1|n1 a1 D1 L1];
  inversion S2 as [a2 D2|a2 x2 c2 D2 U2|a2 x2 c2 D2 K2|n2 a2 D2 L2];
  subst;
  destruct (draws_functional _ _ _ _ _ _ D1 D2) as [Hn Hr];
  try discriminate; try lia; subst; auto.
  - destruct (unitary_functional _ _ _ _ _ _ _ _ U1 U2) as [-> ->]. auto.
  - destruct (kraus_functional _ _ _ _ _ _ _ _ K1 K2) as [-> ->]. auto.
Qed.

(** C9.  With collaborators that are functions of the randomness source's
    state, two runs of [sample_noise] over the same calls, on the same
    model and from the same state of the randomness source, make the same
    branch choices, produce the same results, and leave the source in the
    same state. *)
Theorem sample_noise_deterministic g calls : forall rng trace1 end1 trace2 end2,
  run g calls rng trace1 end1 ->
  run g calls rng trace2 end2 ->
  trace1 = trace2 /\ end1 = end2.
Proof.
  induction calls as [|[op qubits] calls IH]; intros rng t1 e1 t2 e2 R1 R2.
  - inversion R1; inversion R2; subst. auto.
  - inversion R1 as [|? ? ? ? b1 r1 m1 tr1 ? S1 T1]; subst.
    inversion R2 as [|? ? ? ? b2 r2 m2 tr2 ? S2 T2]; subst.
    destruct (sample_step_functional _ _ _ _ _ _ _ _ _ _ S1 S2)
      as (-> & -> & ->).
    destruct (IH _ _ _ _ _ T1 T2) as [-> ->]. auto.
Qed.

End Determinism.

(* ===================================================================== *)
(** * The dense library on identity matrices *)
(* ===================================================================== *)

Module DenseFacts.
Import Dense.
Local Open Scope float_scope.

Lemma nth_map_seq {A} (g : nat -> A) (d : A) (r i : nat) :
  (i < r)%nat -> nth i (map g (seq 0 r)) d = g i.
Proof.
  intros H.
  rewrite (nth_indep _ d (g 0%nat)) by (rewrite length_map, length_seq; exact H).
  rewrite map_nth, seq_nth by exact H. reflexivity.
Qed.

Lemma nth_columns (f : nat -> nat -> complex_t) (r i : nat) :
  (i < r)%nat ->
  forall c s j, (j < c)%nat ->
  nth (j * r + i)
      (flat_map (fun j' => map (fun i' => f i' j') (seq 0 r)) (seq s c))
      Complex.zero = f i (s + j)%nat.
Proof.
  intros Hi. induction c as [|c IH]; intros s j Hj; [lia|].
  cbn [seq flat_map].
  destruct j as [|j].
  - rewrite app_nth1 by (rewrite length_map, length_seq; cbn; lia).
    cbn [Nat.mul Nat.add]. rewrite nth_map_seq by exact Hi.
    rewrite Nat.add_0_r. reflexivity.
  - rewrite app_nth2 by (rewrite length_map, length_seq; cbn; lia).
    rewrite length_map, length_seq.
    replace (S j * r + i - r)%nat with (j * r + i)%nat by (cbn; lia).
    rewrite IH by lia. f_equal. lia.
Qed.

(** Reading back an entry of a built matrix. *)
Lemma get_build (rows cols : nat) (f : nat -> nat -> complex_t) (i j : nat) :
  (i < rows)%nat -> (j < cols)%nat -> get (build rows cols f) i j = f i j.
Proof.
  intros Hi Hj. unfold get, build. cbn [rows_ mat_].
  rewrite nth_columns by assumption. reflexivity.
Qed.

(** Two builds that agree on every entry in range are the same matrix. *)
Lemma build_ext (rows cols : nat) (f f' : nat -> nat -> complex_t) :
  (forall i j, (i < rows)%nat -> (j < cols)%nat -> f i j = f' i j) ->
  build rows cols f = build rows cols f'.
Proof.
  intros H. unfold build. f_equal.
  rewrite !flat_map_concat_map. f_equal.
  apply map_ext_in. intros j Hj. apply map_ext_in. intros i Hi.
  apply in_seq in Hi, Hj. apply H; lia.
Qed.

Lemma size_build (rows cols : nat) (f : nat -> nat -> complex_t) :
  size (build rows cols f) = (cols * rows)%nat.
Proof.
  unfold size, build. cbn [mat_].
  generalize 0%nat at 2. induction cols as [|c IH]; intros s; [reflexivity|].
  cbn [seq flat_map]. rewrite length_app, length_map, length_seq, IH.
  cbn. lia.
Qed.

(** A sum of terms that are all zero leaves zero and one as they are. *)
Lemma fold_zero_terms (t : nat -> complex_t) (l : list nat) (acc : complex_t) :
  (forall k, In k l -> t k = Complex.zero) ->
  acc = Complex.zero \/ acc = Complex.one ->
  fold_left (fun a k => Complex.add a (t k)) l acc = acc.
Proof.
  revert acc. induction l as [|k l IH]; intros acc Ht Hacc; [reflexivity|].
  cbn [fold_left]. rewrite (Ht k) by (left; reflexivity).
  assert (E : Complex.add acc Complex.zero = acc)
    by (destruct Hacc as [-> | ->]; reflexivity).
  rewrite E. apply IH; [|exact Hacc].
  intros k' Hk'. apply Ht. right. exact Hk'.
Qed.

(** A sum over [0 .. n-1] whose only non-zero term is a one at [i]. *)
Lemma fold_single_one (t : nat -> complex_t) (n i : nat) :
  (i < n)%nat -> t i = Complex.one ->
  (forall k, k <> i -> t k = Complex.zero) ->
  fold_left (fun a k => Complex.add a (t k)) (seq 0 n) Complex.zero
  = Complex.one.
Proof.
  intros Hi Hone Hzero.
  replace n with (i + S (n - S i))%nat by lia.
  rewrite seq_app, fold_left_app. cbn [seq fold_left Nat.add].
  rewrite (fold_zero_terms t (seq 0 i) Complex.zero);
    [|intros k Hk; apply Hzero; apply in_seq in Hk; lia|left; reflexivity].
  rewrite Hone.
  change (Complex.add Complex.zero Complex.one) with Complex.one.
  apply fold_zero_terms; [|right; reflexivity].
  intros k Hk. apply Hzero. apply in_seq in Hk. lia.
Qed.

Lemma delta_refl i : delta i i = Complex.one.
Proof. unfold delta. rewrite Nat.eqb_refl. reflexivity. Qed.

Lemma delta_neq i j : i <> j -> delta i j = Complex.zero.
Proof.
  intros H. unfold delta. apply Nat.eqb_neq in H. rewrite H. reflexivity.
Qed.

Lemma get_identity n i j :
  (i < n)%nat -> (j < n)%nat -> get (identity n) i j = delta i j.
Proof. intros. unfold identity. apply get_build; assumption. Qed.

Lemma get_adjoint_identity n i j :
  (i < n)%nat -> (j < n)%nat ->
  get (adjoint (identity n)) i j = Complex.conj (delta j i).
Proof.
  intros Hi Hj. unfold adjoint. cbn [identity build rows_ cols_].
  rewrite get_build by assumption.
  fold (build n n delta). fold (identity n).
  rewrite get_identity by assumption. reflexivity.
Qed.

(** [dagger(I) * I] is [I], bit for bit. *)
Lemma adjoint_identity_mul n : mul (adjoint (identity n)) (identity n) = identity n.
Proof.
  unfold mul. cbn [adjoint identity build rows_ cols_].
  fold (build n n delta). fold (identity n).
  change (build n n (fun i j => Complex.conj (get (identity n) j i)))
    with (adjoint (identity n)).
  unfold identity at 3. apply build_ext. intros i j Hi Hj.
  unfold dot. cbn [adjoint identity build cols_ rows_].
  fold (build n n delta). fold (identity n).
  change (build n n (fun i j => Complex.conj (get (identity n) j i)))
    with (adjoint (identity n)).
  set (t := fun k => Complex.mul (Complex.conj (delta k i)) (delta k j)).
  assert (Hfold : forall acc,
    fold_left (fun a k => Complex.add a
                 (Complex.mul (get (adjoint (identity n)) i k)
                              (get (identity n) k j))) (seq 0 n) acc =
    fold_left (fun a k => Complex.add a (t k)) (seq 0 n) acc).
  { intros acc. revert acc.
    assert (Hin : forall k, In k (seq 0 n) -> (k < n)%nat)
      by (intros k Hk; apply in_seq in Hk; lia).
    induction (seq 0 n) as [|k l IH]; intros acc; [reflexivity|].
    cbn [fold_left].
    rewrite (get_adjoint_identity n i k), (get_identity n k j)
      by (try assumption; apply Hin; left; reflexivity).
    apply IH. intros k' Hk'. apply Hin. right. exact Hk'. }
  rewrite Hfold.
  destruct (Nat.eq_dec i j) as [<-|Hij].
  - rewrite delta_refl. apply (fold_single_one t n i); [exact Hi| |].
    + unfold t. rewrite delta_refl. reflexivity.
    + intros k Hk. unfold t. rewrite delta_neq by exact Hk. reflexivity.
  - rewrite delta_neq by exact Hij.
    apply fold_zero_terms; [|left; reflexivity].
    intros k _. unfold t.
    destruct (Nat.eq_dec k i) as [->|Hki].
    + rewrite delta_refl, (delta_neq i j) by exact Hij. reflexivity.
    + rewrite (delta_neq k i) by exact Hki.
      unfold delta. destruct (Nat.eqb k j); reflexivity.
Qed.

Lemma sqrt_square n : Nat.sqrt (n * n) = n.
Proof. apply Nat.sqrt_square. Qed.

(** The CPTP accumulator of the single identity matrix is the identity. *)
Lemma cptp_sum_identity n :
  cptp_sum [identity n] (matrix_of_size (msize (identity n))) = identity n.
Proof.
  cbn [cptp_sum fold_left dense matrix_of_size msize madd mmul dagger].
  rewrite adjoint_identity_mul.
  unfold identity at 1. rewrite size_build.
  unfold add, of_size. rewrite sqrt_square. cbn [build rows_ cols_].
  fold (build n n (fun _ _ => Complex.zero)).
  unfold identity. apply build_ext. intros i j Hi Hj.
  rewrite !get_build by assumption.
  unfold delta. destruct (Nat.eqb i j); reflexivity.
Qed.

(** The identity passes the identity test at every tolerance that is not
    negative; in particular at the decomposition's. *)
Lemma identity_within_identity n :
  identity_within (identity n) threshold = true.
Proof.
  unfold identity_within, square. cbn [identity build rows_ cols_].
  rewrite Nat.eqb_refl. cbn [andb].
  apply forallb_forall. intros j Hj. apply forallb_forall. intros i Hi.
  apply in_seq in Hi, Hj.
  unfold close. fold (build n n delta). fold (identity n).
  rewrite get_identity by lia.
  unfold delta. destruct (Nat.eqb i j); reflexivity.
Qed.

(** Scaling the identity by one gives the identity. *)
Lemma scale_one_identity n : scale 1 (identity n) = identity n.
Proof.
  unfold scale. cbn [identity build rows_ cols_].
  fold (build n n delta). fold (identity n).
  unfold identity at 2. apply build_ext. intros i j Hi Hj.
  rewrite get_identity by assumption.
  unfold delta. destruct (Nat.eqb i j); reflexivity.
Qed.

(** The weight the loop computes for an identity matrix is 1. *)
Lemma weight_identity n : (0 < n)%nat -> weight (identity n) = 1.
Proof.
  intros Hn. unfold weight. cbn [dense GetRows entry].
  cbn [identity build rows_].
  fold (build n n delta). fold (identity n).
  destruct n as [|n]; [lia|].
  cbn [seq fold_left]. rewrite (get_identity (S n) 0 0) by lia.
  rewrite delta_refl.
  change (0 + Complex.abs (Complex.mul Complex.one (Complex.conj Complex.one)))
    with 1.
  assert (Hin : forall j, In j (seq 1 n) -> (0 < j < S n)%nat)
    by (intros j Hj; apply in_seq in Hj; lia).
  induction (seq 1 n) as [|j l IH]; [reflexivity|].
  cbn [fold_left].
  assert (Hj : (0 < j < S n)%nat) by (apply Hin; left; reflexivity).
  rewrite (get_identity (S n) j 0), (get_identity (S n) 0 j) by lia.
  rewrite (delta_neq j 0), (delta_neq 0 j) by lia.
  change (1 + Complex.abs (Complex.mul Complex.zero (Complex.conj Complex.zero)))
    with 1.
  apply IH. intros j' Hj'. apply Hin. right. exact Hj'.
Qed.

(** The classification of the single identity matrix. *)
Lemma classify_identity n :
  (0 < n)%nat ->
  classify [identity n] partition_init =
  inr {| p_identity := 1; p_unitary := 0;
         probs_unitaries := []; unitaries := []; kraus := [] |}.
Proof.
  intros Hn. cbn [classify]. unfold classify_one.
  cbn [dense is_square is_identity smul].
  rewrite weight_identity by exact Hn.
  assert (Hsq : square (identity n) = true)
    by (unfold square; cbn; apply Nat.eqb_refl).
  rewrite Hsq. cbn [negb].
  change (0 <? 1) with true. cbv iota.
  change (1 / sqrt 1) with 1.
  rewrite scale_one_identity, identity_within_identity.
  reflexivity.
Qed.

End DenseFacts.

(* ===================================================================== *)
(** * The decomposition on the sample channels *)
(* ===================================================================== *)

Section ConcreteClaims.
Import Channels.
Local Open Scope float_scope.

(** C1.  The weight the loop computes pairs column 0 with row 0, and so
    is the (0,0) entry of neither [M * dagger(M)] nor [dagger(M) * M]: for
    |0><1| the entry of [M * dagger(M)] is 1 and for |1><0| that of
    [dagger(M) * M] is 1, while both weights are 0.  On the reset channel
    to |0> the operator |0><1| is therefore dropped, and the Kraus
    sub-channel is left with |0><0| alone. *)
Theorem weight_is_not_adjoint_product_entry :
  is_square K1 = true /\
  real (entry (mmul K1 (dagger K1)) 0 0) = 1 /\
  weight K1 = 0 /\
  real (entry (mmul (dagger L0) L0) 0 0) = 1 /\
  weight L0 = 0 /\
  classify_one partition_init K1 = inr partition_init /\
  let call := set_from_ops [K0; K1] 1 GateError_default in
  fst call = Ok tt /\
  kraus_ (kraus_error_ (snd call)) = [K0] /\
  kraus_probability (kraus_error_ (snd call)) = 1.
Proof.
  repeat split; vm_compute; reflexivity.
Qed.

(** C4.  A call of [set_from_ops] that returns leaves the distribution
    [1 - p_error + p_error * p_identity], [p_error * p_unitary],
    [p_error * p_kraus] over the weights of the classification.  For a
    single identity matrix of any positive dimension the call returns with
    [p_identity = 1] and the other two weights 0, and for [p_error = 1]
    the distribution is 1, 0, 0. *)
Theorem distribution_after_set_from_ops :
  (forall (ML : MatrixLib) (g g' : GateError) (mats : list cmatrix_t)
          (p_error : double),
      set_from_ops mats p_error g = (Ok tt, g') ->
      exists st,
        classify mats partition_init = inr st /\
        probabilities_ g' =
          Discrete [1 - p_error + p_error * p_identity st;
                    p_error * p_unitary st;
                    p_error * p_kraus st]) /\
  (forall (n : nat) (g : @GateError dense) (p_error : double),
      (0 < n)%nat ->
      exists g',
        set_from_ops [Dense.identity n] p_error g = (Ok tt, g') /\
        probabilities_ g' =
          Discrete [1 - p_error + p_error * 1; p_error * 0; p_error * 0]) /\
  (forall (n : nat) (g : @GateError dense),
      (0 < n)%nat ->
      exists g',
        set_from_ops [Dense.identity n] 1 g = (Ok tt, g') /\
        probabilities_ g' = Discrete [1; 0; 0]).
Proof.
  assert (Hid : forall n g p_error, (0 < n)%nat ->
            set_from_ops [Dense.identity n] p_error g
            = (Ok tt, configured (Build_partition 1 0 [] [] []) p_error)).
  { intros n g p_error Hn.
    refine (eq_trans (set_from_ops_cons (ML := dense) (Dense.identity n) []
                        p_error g) _).
    rewrite DenseFacts.cptp_sum_identity.
    change (@is_identity dense (Dense.identity n) threshold)
      with (Dense.identity_within (Dense.identity n) threshold).
    rewrite DenseFacts.identity_within_identity.
    pose proof (DenseFacts.classify_identity n Hn) as Hc.
    change (@classify dense (@cons (@cmatrix_t dense) (Dense.identity n) nil)
              partition_init = inr (Build_partition 1 0 [] [] [])) in Hc.
    rewrite Hc. reflexivity. }
  split; [|split].
  - intros ML g g' mats p_error. apply distribution_of_returning_call.
  - intros n g p_error Hn. eexists. split; [apply Hid, Hn|reflexivity].
  - intros n g Hn. eexists. split; [apply Hid, Hn|reflexivity].
Qed.

End ConcreteClaims.

(* ===================================================================== *)
(** * Concrete runs: inputs on which the statements above apply, and
      inputs that separate the code from stronger statements *)
(* ===================================================================== *)

Section ConcreteRuns.
Import Channels.
Local Open Scope float_scope.

(** |0><0| alone is not trace preserving: the call throws the CPTP error. *)
Lemma invalid_channel_rejected_witness :
  is_identity (cptp_sum [K0] (matrix_of_size (msize K0))) threshold = false /\
  set_from_ops [K0] 1 GateError_default
    = (Threw InvalidChannel, GateError_default) /\
  GateError_from_ops [K0] = Threw InvalidChannel.
Proof.
  split; [reflexivity|].
  apply (invalid_channel_rejected (ML := dense) GateError_default K0 [] 1).
  reflexivity.
Defined.

(** C3, as stated, fails: the uniform mixture of the identity and Pauli X
    is accepted, and its recovered Kraus weight is negative. *)
Lemma kraus_weight_negative_on_bit_flip :
  is_identity (cptp_sum bit_flip (matrix_of_size (msize (hd K0 bit_flip))))
              threshold = true /\
  fst (set_from_ops bit_flip 1 GateError_default) = Ok tt /\
  exists st,
    classify bit_flip partition_init = inr st /\
    (0 <=? p_kraus st) = false /\
    (p_kraus st <? 0) = true.
Proof.
  split; [vm_compute; reflexivity|].
  split; [vm_compute; reflexivity|].
  eexists. split; [vm_compute; reflexivity|].
  split; vm_compute; reflexivity.
Qed.

Lemma recovered_weights_witness :
  (0 <=? p_identity bit_flip_partition) = true /\
  (0 <=? p_unitary bit_flip_partition) = true /\
  p_kraus bit_flip_partition
    = 1 - p_identity bit_flip_partition - p_unitary bit_flip_partition /\
  set_from_ops bit_flip 1 GateError_default =
    if threshold <? abs (p_identity bit_flip_partition
                         + p_unitary bit_flip_partition
                         + p_kraus bit_flip_partition - 1)
    then (Threw InvalidDecomposition, GateError_default)
    else (Ok tt, configured bit_flip_partition 1).
Proof.
  apply (recovered_weights (ML := dense) GateError_default
           (Dense.scale (sqrt 0.5) (Dense.identity 2))
           [Dense.scale (sqrt 0.5) X] 1 bit_flip_partition).
  - vm_compute. reflexivity.
  - vm_compute. reflexivity.
Defined.

Lemma distribution_after_set_from_ops_witness :
  exists g',
    set_from_ops [Dense.identity 2] 1 GateError_default = (Ok tt, g') /\
    probabilities_ g' = Discrete [1; 0; 0].
Proof.
  apply (proj2 (proj2 distribution_after_set_from_ops) 2%nat GateError_default).
  apply Nat.lt_0_succ.
Defined.

(** C5, as stated, fails: both operators of the reset channel to |1> are
    dropped, the Kraus list is empty, the Kraus entry of the distribution
    is 1, and the call returns. *)
Lemma empty_kraus_with_weight_returns :
  let call := set_from_ops [L0; L1] 1 GateError_default in
  fst call = Ok tt /\
  fst call <> Threw InvalidDecomposition /\
  kraus_ (kraus_error_ (snd call)) = [] /\
  weights (probabilities_ (snd call)) = [0; 0; 1] /\
  (nth 2%nat (weights (probabilities_ (snd call))) 0 =? 0) = false.
Proof.
  repeat split; try (vm_compute; reflexivity).
  vm_compute. discriminate.
Qed.

Lemma empty_kraus_is_suppressed_witness :
  exists g',
    set_from_ops [L0; L1] 1 GateError_default = (Ok tt, g') /\
    kraus_ (kraus_error_ g') = [] /\
    kraus_probability (kraus_error_ g') = 0 /\
    nth_error (weights (probabilities_ g')) 2
      = Some (1 * p_kraus reset1_partition).
Proof.
  apply (empty_kraus_is_suppressed (ML := dense) GateError_default
           L0 [L1] 1 reset1_partition).
  - vm_compute. reflexivity.
  - vm_compute. reflexivity.
  - vm_compute. reflexivity.
  - reflexivity.
Defined.

(** C7, as stated, fails: a list with a 2 by 1 matrix whose adjoint
    products do not sum to the identity throws the CPTP error, not the
    squareness error. *)
Lemma nonsquare_input_throws_invalid_channel :
  is_square Z21 = false /\
  In Z21 [Z11; Z21] /\
  set_from_ops [Z11; Z21] 1 GateError_default
    = (Threw InvalidChannel, GateError_default) /\
  fst (set_from_ops [Z11; Z21] 1 GateError_default)
    <> Threw NonSquareOperator.
Proof.
  split; [reflexivity|].
  split; [right; left; reflexivity|].
  split; [vm_compute; reflexivity|].
  vm_compute. discriminate.
Qed.

Lemma nonsquare_rejected_after_cptp_check_witness :
  classify [I11; Z21] partition_init = inl NonSquareOperator /\
  set_from_ops [I11; Z21] 1 GateError_default
    = (Threw NonSquareOperator, GateError_default).
Proof.
  apply (nonsquare_rejected_after_cptp_check (ML := dense) GateError_default
           I11 [Z21] 1).
  - vm_compute. reflexivity.
  - apply Exists_cons_tl. apply Exists_cons_hd. reflexivity.
Defined.

(** C8, as stated, fails: the values 2, 1, 1 are stored as 0.5, 0.25,
    0.25, and three zeros as three NaNs. *)
Lemma set_probabilities_renormalizes :
  prob (probabilities_ (snd (set_probabilities 2 1 1 GateError_default)))
    = [0.5; 0.25; 0.25] /\
  (nth 0 (prob (probabilities_
                  (snd (set_probabilities 2 1 1 GateError_default)))) 0
     =? 2) = false /\
  prob (probabilities_ (snd (set_probabilities 0 0 0 GateError_default)))
    = [nan; nan; nan].
Proof. repeat split; vm_compute; reflexivity. Qed.

(** An operator scaled by 2^-333 has the positive weight 2^-666 and is
    kept; one scaled by 2^600 has weight plus infinity. *)
Example extreme_weights :
  weight (Dense.scale 0x1p-333 K0) = 0x1p-666 /\
  (0 <? weight (Dense.scale 0x1p-333 K0)) = true /\
  weight (Dense.scale 0x1p600 K0) = infinity.
Proof. repeat split; vm_compute; reflexivity. Qed.

Lemma first_matrix_read_unchecked_witness :
  (exists mat0, nth_error [K0] 0 = Some mat0) /\
  fst (set_from_ops [K0] 1 GateError_default) <> OutOfBounds.
Proof.
  apply (proj2 (first_matrix_read_unchecked (ML := dense) GateError_default 1)
           [K0]).
  discriminate.
Defined.

End ConcreteRuns.

(* ===================================================================== *)
(** * Concrete sampling runs on the replayed randomness source *)
(* ===================================================================== *)

Section ReplayRuns.
Local Open Scope string_scope.
Local Open Scope N_scope.

Lemma sample_noise_dispatch_witness :
  Replay.sample GateError_default "x" [0] [0; 5] = (Ok ["x"], [5]) /\
  Replay.sample GateError_default "x" [0] [1; 5; 6]
    = Replay.unitary_sample_noise (unitary_error_ GateError_default)
                                  "x" [0] [5; 6] /\
  Replay.sample GateError_default "x" [0] [2; 5; 6]
    = Replay.kraus_sample_noise (kraus_error_ GateError_default)
                                "x" [0] [5; 6] /\
  Replay.sample GateError_default "x" [0] [7; 5]
    = (Threw UnreachableState, [5]).
Proof.
  split; [|split; [|split]].
  - apply (proj1 (sample_noise_dispatch (ML := dense) _ _ _ Replay.rand_int
                    Replay.unitary_sample_noise Replay.kraus_sample_noise
                    GateError_default "x" [0] [0; 5] [5] 0 eq_refl) eq_refl).
  - apply (proj1 (proj2 (sample_noise_dispatch (ML := dense) _ _ _
                    Replay.rand_int
                    Replay.unitary_sample_noise Replay.kraus_sample_noise
                    GateError_default "x" [0] [1; 5; 6] [5; 6] 1 eq_refl))
             eq_refl).
  - apply (proj1 (proj2 (proj2 (sample_noise_dispatch (ML := dense) _ _ _
                    Replay.rand_int
                    Replay.unitary_sample_noise Replay.kraus_sample_noise
                    GateError_default "x" [0] [2; 5; 6] [5; 6] 2 eq_refl)))
             eq_refl).
  - apply (proj2 (proj2 (proj2 (sample_noise_dispatch (ML := dense) _ _ _
                    Replay.rand_int
                    Replay.unitary_sample_noise Replay.kraus_sample_noise
                    GateError_default "x" [0] [7; 5] [5] 7 eq_refl)))
             eq_refl).
Defined.

(** The replayed collaborators are functions of the tape. *)
Lemma replay_draw_functional d (rng : Replay.RngEngine) n1 rng1 n2 rng2 :
  draw_of Replay.rand_int d rng n1 rng1 ->
  draw_of Replay.rand_int d rng n2 rng2 -> n1 = n2 /\ rng1 = rng2.
Proof. unfold draw_of. intros H1 H2. rewrite H1 in H2. now injection H2. Qed.

Lemma graph_functional {S A} (c : M S A) s r1 s1 r2 s2 :
  graph_of c s r1 s1 -> graph_of c s r2 s2 -> r1 = r2 /\ s1 = s2.
Proof. unfold graph_of. intros H1 H2. rewrite H1 in H2. now injection H2. Qed.

Lemma sample_noise_deterministic_witness :
  let run :=
    sample_run (draw_of Replay.rand_int)
      (fun u o q => graph_of (Replay.unitary_sample_noise u o q))
      (fun k o q => graph_of (Replay.kraus_sample_noise k o q))
      GateError_default [("x", [0]); ("h", [1]); ("cx", [0; 1])] [0; 1; 4; 9]
  in
  let trace :=
    [(0, Ok ["x"]); (1, Ok ["h"; "unitary"]); (9, Threw UnreachableState)] in
  run trace [] /\
  (forall trace' end', run trace' end' -> trace' = trace /\ end' = []).
Proof.
  intros run trace.
  assert (R : run trace []).
  { unfold run, trace.
    eapply run_call.
    { eapply (sample_step_graph _ _ _ Replay.rand_int); reflexivity. }
    eapply run_call.
    { eapply (sample_step_graph _ _ _ Replay.rand_int); reflexivity. }
    eapply run_call.
    { eapply (sample_step_graph _ _ _ Replay.rand_int); reflexivity. }
    apply run_done. }
  split; [exact R|].
  intros trace' end' R'.
  apply (sample_noise_deterministic (ML := dense) _ _ _
           (draw_of Replay.rand_int)
           (fun u o q => graph_of (Replay.unitary_sample_noise u o q))
           (fun k o q => graph_of (Replay.kraus_sample_noise k o q))
           replay_draw_functional
           (fun u o q => graph_functional _)
           (fun k o q => graph_functional _)
           GateError_default _ _ _ _ _ _ R' R).
Defined.

End ReplayRuns.

(* ===================================================================== *)
(** * The classification loop as a partition of the input *)
(* ===================================================================== *)

Section PartitionLaws.
Context {ML : MatrixLib}.
Local Open Scope float_scope.

Lemma extend_nil st : extend st [] = st.
Proof.
  destruct st. unfold extend, sum_weights. cbn.
  rewrite !app_nil_r. reflexivity.
Qed.

(** The loop from any state: it throws exactly when some matrix is not
    square, and otherwise extends the state by the terms of the input. *)
Lemma classify_from mats : forall st,
  classify mats st =
  if forallb is_square mats then inr (extend st mats)
  else inl NonSquareOperator.
Proof.
  induction mats as [|mat rest IH]; intros st.
  - cbn. rewrite extend_nil. reflexivity.
  - cbn [classify forallb]. unfold classify_one.
    destruct (is_square mat); cbn [negb andb]; [|reflexivity].
    destruct (0 <? weight mat) eqn:Hp;
      [destruct (is_identity (smul (1 / sqrt (weight mat)) mat) threshold)
         eqn:Hi;
       [|destruct (is_unitary (smul (1 / sqrt (weight mat)) mat) threshold)
           eqn:Hu]|];
      rewrite IH; destruct (forallb is_square rest); try reflexivity;
      f_equal; unfold extend; cbn [filter];
      unfold identity_term, unitary_term, kraus_term, rescaled;
      rewrite Hp, ?Hi, ?Hu; cbn; rewrite <- ?app_assoc; reflexivity.
Qed.

(** X1.  The classification loop throws the squareness error exactly when
    some input matrix is not square; otherwise its lists are the inputs
    filtered by the branch they take, in input order: the Kraus list holds
    the original matrices of the Kraus branch, the unitary list the
    rescaled matrices of the unitary branch with their weights beside
    them, and the two accumulators the running sums of the weights of the
    identity and unitary branches. *)
Theorem classify_partitions_input (mats : list cmatrix_t) :
  classify mats partition_init =
  if forallb is_square mats
  then inr {| p_identity := sum_weights 0 (filter identity_term mats);
              p_unitary := sum_weights 0 (filter unitary_term mats);
              probs_unitaries := map weight (filter unitary_term mats);
              unitaries := map rescaled (filter unitary_term mats);
              kraus := filter kraus_term mats |}
  else inl NonSquareOperator.
Proof. apply classify_from. Qed.

Lemma fold_left_add_map (l : list cmatrix_t) : forall acc,
  fold_left PrimFloat.add (map weight l) acc = sum_weights acc l.
Proof.
  induction l as [|m l IH]; intros acc; [reflexivity|].
  cbn. apply IH.
Qed.

Lemma classify_result mats st :
  classify mats partition_init = inr st ->
  forallb is_square mats = true /\ st = extend partition_init mats.
Proof.
  rewrite classify_from. destruct (forallb is_square mats); [|discriminate].
  intros H. injection H as <-. auto.
Qed.

(** X2.  After the loop the unitary weights and the unitary matrices are
    parallel: there are as many of one as of the other, every recorded
    weight is strictly positive (never zero, negative or NaN), and
    [p_unitary] is exactly their sum taken left to right from 0. *)
Theorem unitary_weights_parallel (mats : list cmatrix_t) (st : partition) :
  classify mats partition_init = inr st ->
  List.length (probs_unitaries st) = List.length (unitaries st) /\
  Forall (fun p => (0 <? p) = true) (probs_unitaries st) /\
  p_unitary st = fold_left PrimFloat.add (probs_unitaries st) 0.
Proof.
  intros H. apply classify_result in H. destruct H as [_ ->].
  cbn. rewrite !length_map, fold_left_add_map. repeat split.
  apply Forall_map, Forall_forall. intros m Hm.
  apply filter_In in Hm. destruct Hm as [_ Hm].
  unfold unitary_term in Hm.
  apply andb_prop in Hm. destruct Hm as [Hm _].
  apply andb_prop in Hm. destruct Hm as [Hm _]. exact Hm.
Qed.

Lemma filter_disjoint_length {A} (f g : A -> bool) (l : list A) :
  (forall a, f a = true -> g a = false) ->
  List.length (filter f l) + List.length (filter g l) <= List.length l.
Proof.
  intros Hfg. induction l as [|a l IH]; [reflexivity|].
  cbn. destruct (f a) eqn:Hf.
  - rewrite (Hfg a Hf). cbn. lia.
  - destruct (g a); cbn; lia.
Qed.

(** X3.  Every Kraus candidate is one of the input matrices, unscaled,
    whose rescaling passes neither the identity nor the unitary test; no
    input lands in both the unitary and the Kraus list, so the two lists
    together are no longer than the input. *)
Theorem kraus_candidates_are_inputs (mats : list cmatrix_t) (st : partition) :
  classify mats partition_init = inr st ->
  (forall k, In k (kraus st) ->
     In k mats /\ is_square k = true /\ (0 <? weight k) = true /\
     is_identity (rescaled k) threshold = false /\
     is_unitary (rescaled k) threshold = false) /\
  List.length (unitaries st) + List.length (kraus st) <= List.length mats.
Proof.
  intros H. apply classify_result in H. destruct H as [Hsq ->].
  cbn. split.
  - intros k Hk. apply filter_In in Hk. destruct Hk as [Hin Hk].
    unfold kraus_term in Hk.
    apply andb_prop in Hk. destruct Hk as [Hk Hu].
    apply andb_prop in Hk. destruct Hk as [Hp Hi].
    apply negb_true_iff in Hu, Hi.
    rewrite forallb_forall in Hsq. auto.
  - rewrite length_map. apply filter_disjoint_length.
    intros m Hm. unfold unitary_term in Hm. unfold kraus_term.
    apply andb_prop in Hm. destruct Hm as [_ Hu]. rewrite Hu.
    cbn. apply andb_false_r.
Qed.

End PartitionLaws.

(* ===================================================================== *)
(** * Outcomes of [set_from_ops] and of the constructor *)
(* ===================================================================== *)

Section OutcomeLaws.
Context {ML : MatrixLib}.
Local Open Scope float_scope.

(** X4.  A call of [set_from_ops] that does not return leaves the object
    exactly as it was; what it throws is one of the three errors of the
    function; and it is an out-of-range access exactly on the empty
    list. *)
Theorem set_from_ops_failure_is_clean (mats : list cmatrix_t)
    (p_error : double) (g : GateError) :
  (fst (set_from_ops mats p_error g) <> Ok tt ->
   snd (set_from_ops mats p_error g) = g) /\
  (forall e, fst (set_from_ops mats p_error g) = Threw e ->
     e = InvalidChannel \/ e = NonSquareOperator \/ e = InvalidDecomposition) /\
  (fst (set_from_ops mats p_error g) = OutOfBounds <-> mats = []).
Proof.
  destruct mats as [|mat0 rest].
  - rewrite set_from_ops_nil. cbn. repeat split; auto; discriminate.
  - rewrite set_from_ops_cons, classify_from.
    destruct (is_identity _ threshold);
      [destruct (forallb is_square (mat0 :: rest));
       [destruct (deduced_invalid _)|]|];
      cbn [fst snd]; (split; [|split; [|split]]);
      try congruence; try discriminate; auto;
      intros e He; injection He as <-; auto.
Qed.

(** X5.  [set_from_ops] never reads the object it configures: the outcome
    is the same from any two prior states, a returning call leaves the
    same object from both, and running the call again on its own result
    changes nothing. *)
Theorem set_from_ops_overwrites (mats : list cmatrix_t) (p_error : double)
    (g1 g2 : GateError) :
  fst (set_from_ops mats p_error g1) = fst (set_from_ops mats p_error g2) /\
  (fst (set_from_ops mats p_error g1) = Ok tt ->
   snd (set_from_ops mats p_error g1) = snd (set_from_ops mats p_error g2) /\
   set_from_ops mats p_error (snd (set_from_ops mats p_error g1))
     = set_from_ops mats p_error g1).
Proof.
  destruct mats as [|mat0 rest].
  - rewrite !set_from_ops_nil. cbn. split; [reflexivity|discriminate].
  - rewrite !set_from_ops_cons.
    destruct (is_identity _ threshold); [|split; [reflexivity|discriminate]].
    destruct (classify (mat0 :: rest) partition_init) as [e|st];
      [split; [reflexivity|discriminate]|].
    destruct (deduced_invalid st); [split; [reflexivity|discriminate]|].
    cbn [fst snd]. auto.
Qed.

(** X6.  After a call that returns, the unitary sub-channel holds the
    rescaled matrices of the unitary branch, in input order, and as many
    weights as matrices; the Kraus sub-channel holds as many operators as
    inputs took the Kraus branch; and the Kraus activation probability is
    1 when there is one, 0 when there is none. *)
Theorem subchannels_after_set_from_ops (mats : list cmatrix_t)
    (p_error : double) (g g' : GateError) :
  set_from_ops mats p_error g = (Ok tt, g') ->
  unitaries_ (unitary_error_ g') = map rescaled (filter unitary_term mats) /\
  List.length (unitary_probabilities (unitary_error_ g'))
    = List.length (unitaries_ (unitary_error_ g')) /\
  List.length (kraus_ (kraus_error_ g'))
    = List.length (filter kraus_term mats) /\
  kraus_probability (kraus_error_ g')
    = match filter kraus_term mats with [] => 0 | _ :: _ => 1 end.
Proof.
  destruct mats as [|mat0 rest]; [discriminate|].
  rewrite set_from_ops_cons, classify_from.
  destruct (is_identity _ threshold); [|discriminate].
  destruct (forallb is_square (mat0 :: rest)); [|discriminate].
  destruct (deduced_invalid _); [discriminate|].
  intros H. injection H as <-.
  unfold configured, rescaled_probs, rescaled_kraus.
  cbn [unitary_error_ kraus_error_ unitaries_ unitary_probabilities kraus_
       kraus_probability extend partition_init unitaries probs_unitaries
       kraus app].
  split; [reflexivity|]. split; [|split].
  - destruct (_ && _); rewrite ?length_map; reflexivity.
  - destruct (_ && _); rewrite ?length_map; reflexivity.
  - destruct (_ && _); destruct (filter kraus_term (mat0 :: rest));
      reflexivity.
Qed.

(** X7.  A channel none of whose operators takes the identity or the
    unitary branch is passed through: when the CPTP check passes and every
    matrix is square the call returns, the Kraus sub-channel receives the
    original matrices of the Kraus branch, unscaled and in input order,
    the unitary sub-channel receives nothing, and the distribution is
    [1 - p_error + p_error * 0], [p_error * 0], [p_error * 1]. *)
Theorem pure_kraus_channel_passes_through (mat0 : cmatrix_t)
    (rest : list cmatrix_t) (p_error : double) (g : GateError) :
  is_identity (cptp_sum (mat0 :: rest) (matrix_of_size (msize mat0)))
              threshold = true ->
  forallb is_square (mat0 :: rest) = true ->
  filter identity_term (mat0 :: rest) = [] ->
  filter unitary_term (mat0 :: rest) = [] ->
  set_from_ops (mat0 :: rest) p_error g =
    (Ok tt,
     {| probabilities_ :=
          Discrete [1 - p_error + p_error * 0; p_error * 0; p_error * 1];
        unitary_error_ := {| unitary_probabilities := []; unitaries_ := [] |};
        kraus_error_ :=
          {| kraus_ := filter kraus_term (mat0 :: rest);
             kraus_probability :=
               match filter kraus_term (mat0 :: rest) with
               | [] => 0
               | _ :: _ => 1
               end |} |}).
Proof.
  intros Hcptp Hsq Hi Hu.
  rewrite set_from_ops_cons, classify_from, Hcptp, Hsq.
  unfold deduced_invalid, configured, rescaled_probs, rescaled_kraus,
    p_kraus, extend.
  cbn [p_identity p_unitary probs_unitaries unitaries kraus partition_init
       app].
  rewrite Hi, Hu. reflexivity.
Qed.

(** X8.  The constructor from a list of matrices yields an object only
    for a non-empty list of square matrices that passes the CPTP check,
    and the object is then the one of the partition of the input with
    error probability 1; a list that fails the CPTP check throws the CPTP
    error even when it holds a matrix that is not square. *)
Theorem constructor_postcondition (mats : list cmatrix_t) :
  (forall g, GateError_from_ops mats = Ok g ->
     (exists mat0 rest, mats = mat0 :: rest /\
        is_identity (cptp_sum mats (matrix_of_size (msize mat0)))
                    threshold = true) /\
     forallb is_square mats = true /\
     deduced_invalid (extend partition_init mats) = false /\
     g = configured (extend partition_init mats) 1) /\
  (forall mat0 rest, mats = mat0 :: rest ->
     is_identity (cptp_sum mats (matrix_of_size (msize mat0)))
                 threshold = false ->
     GateError_from_ops mats = Threw InvalidChannel).
Proof.
  unfold GateError_from_ops. split.
  - intros g. destruct mats as [|mat0 rest]; [discriminate|].
    rewrite set_from_ops_cons, classify_from.
    destruct (is_identity _ threshold) eqn:Hc; [|discriminate].
    destruct (forallb is_square (mat0 :: rest)); [|discriminate].
    destruct (deduced_invalid _) eqn:Hd; [discriminate|].
    intros H. injection H as <-.
    repeat split. exists mat0, rest. auto.
  - intros mat0 rest -> H. rewrite set_from_ops_cons, H. reflexivity.
Qed.

(** X12.  The error probability only enters the three-way distribution:
    whether the call returns or what it throws, and the two sub-channels
    a returning call configures, are the same for any two values of
    [p_error]. *)
Theorem p_error_only_scales_distribution (mats : list cmatrix_t)
    (p1 p2 : double) (g : GateError) :
  fst (set_from_ops mats p1 g) = fst (set_from_ops mats p2 g) /\
  unitary_error_ (snd (set_from_ops mats p1 g))
    = unitary_error_ (snd (set_from_ops mats p2 g)) /\
  kraus_error_ (snd (set_from_ops mats p1 g))
    = kraus_error_ (snd (set_from_ops mats p2 g)).
Proof.
  destruct mats as [|mat0 rest].
  - rewrite !set_from_ops_nil. auto.
  - rewrite !set_from_ops_cons.
    destruct (is_identity _ threshold); [|auto].
    destruct (classify (mat0 :: rest) partition_init) as [e|st]; [auto|].
    destruct (deduced_invalid st); auto.
Qed.

End OutcomeLaws.

(* ===================================================================== *)
(** * The sign of the weight of an operator *)
(* ===================================================================== *)

Module FloatSign.
Local Open Scope Z_scope.

Lemma nonneg_is_nonneg_or_nan x : nonneg x = true -> nonneg_or_nan x = true.
Proof. destruct x; auto. Qed.

Lemma SFsqrt_core_nonneg prec emax m e mz ez lz :
  0 <= m ->
  SFsqrt_core_binary prec emax m e = (mz, ez, lz) -> 0 <= mz.
Proof.
  intros Hm. unfold SFsqrt_core_binary.
  set (e' := Z.min _ _). set (s := e - 2 * e').
  set (m' := match s with Z.pos _ => Z.shiftl m s | 0 => m | Z.neg _ => 0 end).
  assert (Hm' : 0 <= m').
  { unfold m'. destruct s; try lia. apply Z.shiftl_nonneg. exact Hm. }
  pose proof (Z.sqrtrem_spec m' Hm') as Hs.
  destruct (Z.sqrtrem m') as [q r].
  intros H. injection H as <- _ _. lia.
Qed.

(** A square root is zero, positive, plus infinity or a NaN. *)
Lemma SFsqrt_sign prec emax x : nonneg_or_nan (SFsqrt prec emax x) = true.
Proof.
  destruct x as [s|s| |s m e]; try destruct s; try reflexivity.
  unfold SFsqrt.
  destruct (SFsqrt_core_binary prec emax (Z.pos m) e) as [[mz ez] lz] eqn:E.
  apply nonneg_is_nonneg_or_nan, FloatOrder.binary_round_aux_nonneg.
  eapply SFsqrt_core_nonneg; [|exact E]. lia.
Qed.

Lemma SFadd_sign prec emax x y :
  nonneg_or_nan x = true -> nonneg_or_nan y = true ->
  nonneg_or_nan (SFadd prec emax x y) = true.
Proof.
  intros Hx Hy.
  destruct x as [sx|sx| |sx mx ex] eqn:Ex; try reflexivity;
    destruct y as [sy|sy| |sy my ey] eqn:Ey; try reflexivity;
    apply nonneg_is_nonneg_or_nan, FloatOrder.SFadd_nonneg; assumption.
Qed.

Lemma SFabs_sign x : nonneg_or_nan (SFabs x) = true.
Proof. destruct x; reflexivity. Qed.

Lemma SFmul_sign prec emax x y :
  nonneg_or_nan x = true -> nonneg_or_nan y = true ->
  nonneg_or_nan (SFmul prec emax x y) = true.
Proof.
  destruct x as [sx|sx| |sx mx ex]; try destruct sx; try discriminate;
    destruct y as [sy|sy| |sy my ey]; try destruct sy; try discriminate;
    intros _ _; try reflexivity.
  cbn [SFmul xorb].
  apply nonneg_is_nonneg_or_nan, FloatOrder.binary_round_aux_nonneg. lia.
Qed.

Local Open Scope float_scope.

Lemma sqrt_sign (x : float) : nonneg_or_nan (Prim2SF (sqrt x)) = true.
Proof. rewrite sqrt_spec. apply SFsqrt_sign. Qed.

Lemma abs_sign (x : float) : nonneg_or_nan (Prim2SF (abs x)) = true.
Proof. rewrite abs_spec. apply SFabs_sign. Qed.

Lemma mul_sign (a b : float) :
  nonneg_or_nan (Prim2SF a) = true -> nonneg_or_nan (Prim2SF b) = true ->
  nonneg_or_nan (Prim2SF (a * b)) = true.
Proof. intros Ha Hb. rewrite mul_spec. apply SFmul_sign; assumption. Qed.

(** The modulus of the dense library is zero, positive, plus infinity or
    a NaN. *)
Lemma hypot_sign (x y : float) :
  nonneg_or_nan (Prim2SF (Complex.hypot x y)) = true.
Proof.
  unfold Complex.hypot.
  destruct (is_infinity (abs x) || is_infinity (abs y)); [reflexivity|].
  destruct (is_nan (abs x) || is_nan (abs y)); [reflexivity|].
  destruct (abs x <? abs y).
  - destruct (abs x =? 0); [apply abs_sign|].
    apply mul_sign; [apply abs_sign|apply sqrt_sign].
  - destruct (abs y =? 0); [apply abs_sign|].
    apply mul_sign; [apply abs_sign|apply sqrt_sign].
Qed.

Lemma add_sign (a b : float) :
  nonneg_or_nan (Prim2SF a) = true -> nonneg_or_nan (Prim2SF b) = true ->
  nonneg_or_nan (Prim2SF (a + b)) = true.
Proof. intros Ha Hb. rewrite add_spec. apply SFadd_sign; assumption. Qed.

Lemma not_below_zero (x : float) :
  nonneg_or_nan (Prim2SF x) = true -> (x <? 0) = false.
Proof.
  rewrite ltb_spec. change (Prim2SF 0) with (S754_zero false).
  destruct (Prim2SF x) as [s|s| |s m e]; try destruct s;
    try reflexivity; discriminate.
Qed.

Lemma not_above_zero (x : float) :
  nonneg_or_nan (Prim2SF x) = true ->
  ((0 <? x) = false <-> (x =? 0) = true \/ is_nan x = true).
Proof.
  unfold is_nan. rewrite FloatAxioms.ltb_spec, !FloatAxioms.eqb_spec.
  change (Prim2SF 0) with (S754_zero false).
  destruct (Prim2SF x) as [s|s| |s m e]; try destruct s; cbn;
    intros H; try discriminate; split; auto;
    try (intros [?|?]; discriminate).
  intros [?|Hn]; [discriminate|].
  rewrite Z.compare_refl, Pos.compare_cont_refl in Hn. discriminate.
Qed.

Section Weight.
Context {ML : MatrixLib}.

(** The contract of the library's modulus: never a negative number. *)
Hypothesis cabs_sign : forall z, nonneg_or_nan (Prim2SF (cabs z)) = true.

Lemma weight_sign (mat : cmatrix_t) :
  nonneg_or_nan (Prim2SF (weight mat)) = true.
Proof.
  unfold weight.
  assert (H : forall l acc,
    nonneg_or_nan (Prim2SF acc) = true ->
    nonneg_or_nan (Prim2SF (fold_left
      (fun p j => p + cabs (Complex.mul (entry mat j 0)
                                        (Complex.conj (entry mat 0 j))))
      l acc)) = true).
  { induction l as [|j l IH]; intros acc Hacc; [exact Hacc|].
    cbn [fold_left]. apply IH. apply add_sign; [exact Hacc|].
    apply cabs_sign. }
  apply H. reflexivity.
Qed.

(** X9.  Whenever the library's modulus of a complex number is never
    negative, the weight the loop computes for an operator is never
    negative; the test [p > 0] fails exactly when the weight is zero or a
    NaN; and a square operator for which it fails leaves every local of
    the loop as it was. *)
Theorem operator_dropped_when_weight_zero_or_nan (mat : cmatrix_t) :
  (weight mat <? 0) = false /\
  ((0 <? weight mat) = false <->
   (weight mat =? 0) = true \/ is_nan (weight mat) = true) /\
  (forall st, is_square mat = true -> (0 <? weight mat) = false ->
     classify_one st mat = inr st).
Proof.
  split; [apply not_below_zero, weight_sign|].
  split; [apply not_above_zero, weight_sign|].
  intros st Hsq Hp. unfold classify_one. rewrite Hsq, Hp. reflexivity.
Qed.

End Weight.
End FloatSign.

(* ===================================================================== *)
(** * Sampling from a configured model *)
(* ===================================================================== *)

Section SamplingLaws.
Context {ML : MatrixLib}.
Variables Op reg_t RngEngine : Type.
Variable rand_int : discrete_distribution -> M RngEngine uint_t.
Variable UnitaryError_sample_noise :
  UnitaryError -> Op -> reg_t -> M RngEngine (list Op).
Variable KrausError_sample_noise :
  KrausError -> Op -> reg_t -> M RngEngine (list Op).

Let sample := sample_noise rand_int UnitaryError_sample_noise
                           KrausError_sample_noise.

(** X10.  Replacing a sub-channel with [set_unitary] or [set_kraus] is
    local to its branch: a call whose draw is not that branch's label
    samples exactly as before the replacement, and a call whose draw is
    that label samples from the replacement. *)
Theorem replacing_subchannel_is_local (g : GateError) (err : UnitaryError)
    (kerr : KrausError) (op : Op) (qubits : reg_t) (rng rng' : RngEngine)
    (noise_type : uint_t) :
  rand_int (probabilities_ g) rng = (Ok noise_type, rng') ->
  (noise_type <> 1%N ->
   sample (snd (set_unitary err g)) op qubits rng = sample g op qubits rng) /\
  (noise_type = 1%N ->
   sample (snd (set_unitary err g)) op qubits rng
   = UnitaryError_sample_noise err op qubits rng') /\
  (noise_type <> 2%N ->
   sample (snd (set_kraus kerr g)) op qubits rng = sample g op qubits rng) /\
  (noise_type = 2%N ->
   sample (snd (set_kraus kerr g)) op qubits rng
   = KrausError_sample_noise kerr op qubits rng').
Proof.
  intros Hdraw. unfold sample, sample_noise, bind.
  cbn [set_unitary set_kraus modify snd probabilities_ unitary_error_
       kraus_error_].
  rewrite Hdraw.
  split; [|split; [|split]]; intros H.
  - destruct noise_type as [|[[p|p|]|[p|p|]|]]; congruence.
  - subst. reflexivity.
  - destruct noise_type as [|[[p|p|]|[p|p|]|]]; congruence.
  - subst. reflexivity.
Qed.

Lemma three_weights_in_range (g : GateError) (op : Op) (qubits : reg_t)
    (rng rng' : RngEngine) (n : uint_t) :
  List.length (weights (probabilities_ g)) = 3%nat ->
  rand_int (probabilities_ g) rng = (Ok n, rng') ->
  (N.to_nat n < List.length (weights (probabilities_ g)))%nat ->
  sample g op qubits rng = (Ok [op], rng') \/
  sample g op qubits rng
    = UnitaryError_sample_noise (unitary_error_ g) op qubits rng' \/
  sample g op qubits rng
    = KrausError_sample_noise (kraus_error_ g) op qubits rng'.
Proof.
  intros Hlen Hdraw Hn. rewrite Hlen in Hn.
  unfold sample, sample_noise, bind. rewrite Hdraw.
  destruct n as [|[[p|p|]|[p|p|]|]]; auto; lia.
Qed.

(** X11.  On a model configured by a returning [set_from_ops], or by
    [set_probabilities], the distribution has three weights; a draw that
    is an index into them makes [sample_noise] return the operation alone
    or delegate to one of the two sub-channels, and never reach the
    out-of-range branch. *)
Theorem configured_model_samples_a_branch (g : GateError) (op : Op)
    (qubits : reg_t) (rng rng' : RngEngine) (n : uint_t) :
  (exists mats p_error g0, set_from_ops mats p_error g0 = (Ok tt, g)) \/
  (exists pi pu pk g0, set_probabilities pi pu pk g0 = (Ok tt, g)) ->
  rand_int (probabilities_ g) rng = (Ok n, rng') ->
  (N.to_nat n < List.length (weights (probabilities_ g)))%nat ->
  List.length (weights (probabilities_ g)) = 3%nat /\
  (sample g op qubits rng = (Ok [op], rng') \/
   sample g op qubits rng
     = UnitaryError_sample_noise (unitary_error_ g) op qubits rng' \/
   sample g op qubits rng
     = KrausError_sample_noise (kraus_error_ g) op qubits rng').
Proof.
  intros Hg Hdraw Hn.
  assert (Hlen : List.length (weights (probabilities_ g)) = 3%nat).
  { destruct Hg as [(mats & p_error & g0 & H)|(pi & pu & pk & g0 & H)].
    - destruct mats as [|mat0 rest]; [discriminate|].
      rewrite set_from_ops_cons in H.
      destruct (is_identity _ threshold); [|discriminate].
      destruct (classify _ _); [discriminate|].
      destruct (deduced_invalid _); [discriminate|].
      injection H as <-. reflexivity.
    - injection H as <-. reflexivity. }
  split; [exact Hlen|].
  apply (three_weights_in_range g op qubits rng rng' n); assumption.
Qed.

End SamplingLaws.

(* ===================================================================== *)
(** * Concrete runs for the laws above *)
(* ===================================================================== *)

Section LawRuns.
Import Channels.
Local Open Scope float_scope.

Lemma unitary_weights_parallel_witness :
  List.length (probs_unitaries bit_flip_partition)
    = List.length (unitaries bit_flip_partition) /\
  Forall (fun p => (0 <? p) = true) (probs_unitaries bit_flip_partition) /\
  p_unitary bit_flip_partition
    = fold_left PrimFloat.add (probs_unitaries bit_flip_partition) 0.
Proof.
  apply (unitary_weights_parallel (ML := dense) bit_flip bit_flip_partition).
  vm_compute. reflexivity.
Defined.

Lemma kraus_candidates_are_inputs_witness :
  (forall k, In k (kraus (extend partition_init [K0; K1])) ->
     In k [K0; K1] /\ is_square k = true /\ (0 <? weight k) = true /\
     is_identity (rescaled k) threshold = false /\
     is_unitary (rescaled k) threshold = false) /\
  List.length (unitaries (extend partition_init [K0; K1]))
  + List.length (kraus (extend partition_init [K0; K1]))
  <= List.length [K0; K1].
Proof.
  apply (kraus_candidates_are_inputs (ML := dense) [K0; K1]).
  vm_compute. reflexivity.
Defined.

Lemma subchannels_after_set_from_ops_witness :
  unitaries_ (unitary_error_ bit_flip_model)
    = map rescaled (filter unitary_term bit_flip) /\
  List.length (unitary_probabilities (unitary_error_ bit_flip_model))
    = List.length (unitaries_ (unitary_error_ bit_flip_model)) /\
  List.length (kraus_ (kraus_error_ bit_flip_model))
    = List.length (filter kraus_term bit_flip) /\
  kraus_probability (kraus_error_ bit_flip_model)
    = match filter kraus_term bit_flip with [] => 0 | _ :: _ => 1 end.
Proof.
  apply (subchannels_after_set_from_ops (ML := dense) bit_flip 1
           GateError_default bit_flip_model).
  vm_compute. reflexivity.
Defined.

Lemma pure_kraus_channel_passes_through_witness :
  set_from_ops [K0; K1] 1 GateError_default =
    (Ok tt,
     {| probabilities_ := Discrete [1 - 1 + 1 * 0; 1 * 0; 1 * 1];
        unitary_error_ := {| unitary_probabilities := []; unitaries_ := [] |};
        kraus_error_ :=
          {| kraus_ := filter kraus_term [K0; K1];
             kraus_probability :=
               match filter kraus_term [K0; K1] with
               | [] => 0
               | _ :: _ => 1
               end |} |}).
Proof.
  apply (pure_kraus_channel_passes_through (ML := dense) K0 [K1] 1
           GateError_default); vm_compute; reflexivity.
Defined.

Lemma operator_dropped_when_weight_zero_or_nan_witness :
  (weight K1 <? 0) = false /\
  ((0 <? weight K1) = false <->
   (weight K1 =? 0) = true \/ is_nan (weight K1) = true) /\
  (forall st, is_square K1 = true -> (0 <? weight K1) = false ->
     classify_one st K1 = inr st).
Proof.
  apply (FloatSign.operator_dropped_when_weight_zero_or_nan (ML := dense)
           (fun z => FloatSign.hypot_sign (real z) (imag z)) K1).
Defined.

Local Open Scope string_scope.
Local Open Scope N_scope.

Lemma replacing_subchannel_is_local_witness :
  let err : @UnitaryError dense :=
    {| unitary_probabilities := [1%float]; unitaries_ := [X] |} in
  let kerr : @KrausError dense :=
    {| kraus_ := [K0]; kraus_probability := 1%float |} in
  (1 <> 1 ->
   Replay.sample (snd (set_unitary err bit_flip_model)) "x" [0] [1; 3]
   = Replay.sample bit_flip_model "x" [0] [1; 3]) /\
  (1 = 1 ->
   Replay.sample (snd (set_unitary err bit_flip_model)) "x" [0] [1; 3]
   = Replay.unitary_sample_noise err "x" [0] [3]) /\
  (1 <> 2 ->
   Replay.sample (snd (set_kraus kerr bit_flip_model)) "x" [0] [1; 3]
   = Replay.sample bit_flip_model "x" [0] [1; 3]) /\
  (1 = 2 ->
   Replay.sample (snd (set_kraus kerr bit_flip_model)) "x" [0] [1; 3]
   = Replay.kraus_sample_noise kerr "x" [0] [3]).
Proof.
  intros err kerr.
  apply (replacing_subchannel_is_local (ML := dense) _ _ _ Replay.rand_int
           Replay.unitary_sample_noise Replay.kraus_sample_noise
           bit_flip_model err kerr "x" [0] [1; 3] [3] 1).
  reflexivity.
Defined.

Lemma configured_model_samples_a_branch_witness :
  List.length (weights (probabilities_ bit_flip_model)) = 3%nat /\
  (Replay.sample bit_flip_model "x" [0] [1; 3] = (Ok ["x"], [3]) \/
   Replay.sample bit_flip_model "x" [0] [1; 3]
     = Replay.unitary_sample_noise (unitary_error_ bit_flip_model)
                                   "x" [0] [3] \/
   Replay.sample bit_flip_model "x" [0] [1; 3]
     = Replay.kraus_sample_noise (kraus_error_ bit_flip_model) "x" [0] [3]).
Proof.
  apply (configured_model_samples_a_branch (ML := dense) _ _ _
           Replay.rand_int Replay.unitary_sample_noise
           Replay.kraus_sample_noise bit_flip_model "x" [0] [1; 3] [3] 1).
  - left. exists bit_flip, 1%float, GateError_default.
    vm_compute. reflexivity.
  - reflexivity.
  - cbn. lia.
Defined.

End LawRuns.
